(** * raml-fleece: the hierarchy flattener of [src/main.js]

    A shallow embedding of the flattening core of raml-fleece
    ([flattenHierarchy], [traitsToObject], [flattenResources],
    [makeExampleFromType], [makeExamplesOf], [flattenMethods],
    [tryPrettyJson]) together with the lodash 3 collection functions and the
    JavaScript operations these functions call, and the proofs of what the
    specification says about them.

    The first part holds the definitions.

    - Module [Js]: JavaScript values as immutable trees, exceptions as a
      result type, property reads and writes.
    - Module [Lodash]: [_.forEach], [_.map], [_.reduce], [_.values],
      [_.pluck], [_.extend], [_.set].
    - Class [Host]: the built-ins that are taken as given ([JSON.parse],
      [JSON.stringify], the deep paths of [_.set]).
    - Section [Main]: the functions of [main.js] over trees.  This is the
      model the functional properties are proved on.
    - Module [Reference]: an executable [Host], to run examples.
    - The template helpers [json], [response_code], [json_from_string] and
      [markdown], over the libraries they call (class [Renderer]).
    - Module [Heap]: the functions of [main.js] once more, over a store in
      which objects are passed by reference, as in JavaScript.  It answers
      the one question the tree model cannot ask: whether a call writes into
      the objects of its input.  Where a call does, the tree model still
      gives every result as it is when it is returned, but not the change
      an earlier value undergoes afterwards.  The module ends with the
      predicates that say which cells of the store a call keeps.
    - The notions the statements are written in, and example documents.

    The second part holds the lemmas and theorems: those of the
    specification first (C1 to C10), then further properties of the code
    (X1 to X16). *)

From Stdlib Require Import List String Ascii ZArith NArith Lia Bool Arith DecimalString
  DecimalPos.
Import ListNotations.
Open Scope string_scope.

(** ** JavaScript values *)

Module Js.

(** The data a parsed document is made of.  Numbers are the integer-valued
    ones (no fraction, no NaN); strings are sequences of one-byte
    characters.  An object is the list of its own enumerable properties in
    enumeration order, each name bound once; an array is the list of its
    elements (no holes).  Prototypes are not part of the model: reading a
    name an object does not own yields [Undefined], and the accessor
    [__proto__] has no special meaning. *)
#[warnings="-register-all"]
Inductive value : Type :=
| Undefined
| Null
| Boolean (b : bool)
| Number (n : Z)
| Str (s : string)
| Arr (elems : list value)
| Obj (props : list (string * value)).

(** What a JavaScript exception of these functions can be: the [TypeError]
    of a property read on [null] or [undefined] or of [in] applied to a
    primitive, the [SyntaxError] of [JSON.parse], [new Error(message)], and
    the [RangeError] of an exhausted call stack. *)
Inductive error : Type :=
| TypeError
| SyntaxError
| RangeError
| Error (message : string).

Inductive result (A : Type) : Type :=
| Ok (a : A)
| Throw (e : error).
Arguments Ok {A} a.
Arguments Throw {A} e.

Definition bind {A B : Type} (m : result A) (k : A -> result B) : result B :=
  match m with
  | Ok a => k a
  | Throw e => Throw e
  end.

(** [try { body } catch (e) { handler }] *)
Definition try_catch {A : Type} (body : result A) (handler : error -> result A) : result A :=
  match body with
  | Ok a => Ok a
  | Throw e => handler e
  end.

Declare Scope js_scope.
Delimit Scope js_scope with js.
Notation "x <- m ;; k" := (bind m (fun x => k))
  (at level 61, m at next level, right associativity) : js_scope.
Open Scope js_scope.

(** Nesting depth of a value: the measure the tree walk descends on. *)
Fixpoint height (v : value) : nat :=
  match v with
  | Arr elems => S (list_max (map height elems))
  | Obj props => S (list_max (map (fun kv => match kv with (_, x) => height x end) props))
  | _ => 0
  end.

(** *** Conversions *)

(** ToBoolean: the test of [if (x)] and [!x]. *)
Definition truthy (v : value) : bool :=
  match v with
  | Undefined | Null => false
  | Boolean b => b
  | Number n => negb (n =? 0)%Z
  | Str s => negb (s =? "")
  | Arr _ | Obj _ => true
  end.

(** [x == null] *)
Definition nullish (v : value) : bool :=
  match v with
  | Undefined | Null => true
  | _ => false
  end.

Definition string_of_nat (n : nat) : string := NilZero.string_of_uint (Nat.to_uint n).
Definition string_of_Z (n : Z) : string := NilZero.string_of_int (Z.to_int n).

(** ToString, as string concatenation and property keys apply it.  An array
    prints as its elements joined by commas, [null] and [undefined] elements
    as nothing. *)
Fixpoint ToString (v : value) : string :=
  match v with
  | Undefined => "undefined"
  | Null => "null"
  | Boolean true => "true"
  | Boolean false => "false"
  | Number n => string_of_Z n
  | Str s => s
  | Arr elems =>
      String.concat ","
        (map (fun x => match x with Undefined | Null => "" | _ => ToString x end) elems)
  | Obj _ => "[object Object]"
  end.

(** [Array.prototype.join(separator)] *)
Definition join (elems : list value) (separator : string) : string :=
  String.concat separator
    (map (fun x => match x with Undefined | Null => "" | _ => ToString x end) elems).

(** *** Property names

    A name is an array index when it is the canonical decimal form of an
    integer below 2^32 - 1.  Index names enumerate first, in ascending
    order; the other names follow in the order they were created. *)
Definition index_of_key (k : string) : option N :=
  match NilZero.uint_of_string k with
  | Some u =>
      let n := N.of_uint u in
      if (NilZero.string_of_uint (N.to_uint n) =? k) && (n <? 4294967295)%N
      then Some n else None
  | None => None
  end.

Fixpoint lookup {V : Type} (k : string) (props : list (string * V)) : option V :=
  match props with
  | [] => None
  | (k', v) :: rest => if k' =? k then Some v else lookup k rest
  end.

(** Places a new index name [k] = [n] before the first name that is not a
    smaller index. *)
Fixpoint insert_index {V : Type} (n : N) (k : string) (v : V) (props : list (string * V))
  : list (string * V) :=
  match props with
  | [] => [(k, v)]
  | (k', v') :: rest =>
      match index_of_key k' with
      | Some n' => if (n' <? n)%N then (k', v') :: insert_index n k v rest
                   else (k, v) :: props
      | None => (k, v) :: props
      end
  end.

Fixpoint replace {V : Type} (k : string) (v : V) (props : list (string * V))
  : list (string * V) :=
  match props with
  | [] => []
  | (k', v') :: rest => if k' =? k then (k', v) :: rest else (k', v') :: replace k v rest
  end.

(** [o[k] = v] on the property list of [o]. *)
Definition set_prop {V : Type} (props : list (string * V)) (k : string) (v : V)
  : list (string * V) :=
  match lookup k props with
  | Some _ => replace k v props
  | None =>
      match index_of_key k with
      | Some n => insert_index n k v props
      | None => (props ++ [(k, v)])%list
      end
  end.

(** [delete o[k]] *)
Definition delete_prop {V : Type} (props : list (string * V)) (k : string)
  : list (string * V) :=
  filter (fun kv => negb (fst kv =? k)) props.

Definition chars (s : string) : list value :=
  map (fun c => Str (String c EmptyString)) (list_ascii_of_string s).

Definition indexed {V : Type} (elems : list V) : list (string * V) :=
  combine (map string_of_nat (seq 0 (List.length elems))) elems.

(** The own enumerable properties of a value, as [Object.keys] and lodash's
    [keys] list them: an array and a string own their indices, the other
    primitives own nothing. *)
Definition own_props (v : value) : list (string * value) :=
  match v with
  | Obj props => props
  | Arr elems => indexed elems
  | Str s => indexed (chars s)
  | _ => []
  end.

(** [x[k]] where [x] is neither [null] nor [undefined]. *)
Definition prop (x : value) (k : string) : value :=
  match x with
  | Obj props => match lookup k props with Some v => v | None => Undefined end
  | Arr elems =>
      if k =? "length" then Number (Z.of_nat (List.length elems))
      else match lookup k (indexed elems) with Some v => v | None => Undefined end
  | Str s =>
      if k =? "length" then Number (Z.of_nat (String.length s))
      else match lookup k (indexed (chars s)) with Some v => v | None => Undefined end
  | _ => Undefined
  end.

(** [x.k] and [x[k]]: a TypeError on [null] and [undefined]. *)
Definition get (x : value) (k : string) : result value :=
  if nullish x then Throw TypeError else Ok (prop x k).

(** [k in x]: a TypeError unless [x] is an object or an array. *)
Definition has (k : string) (x : value) : result bool :=
  match x with
  | Obj props => Ok (match lookup k props with Some _ => true | None => false end)
  | Arr elems =>
      Ok ((k =? "length") || match lookup k (indexed elems) with Some _ => true | None => false end)
  | _ => Throw TypeError
  end.

(** [Object.keys(x)] (ECMAScript 2015: a primitive is first made an object). *)
Definition Object_keys (x : value) : result (list string) :=
  if nullish x then Throw TypeError else Ok (map fst (own_props x)).

End Js.

Import Js.

(** ** lodash 3.x

    The collection functions [main.js] calls, on the values above.  A mutable
    variable that a callback assigns to is threaded through as the state [S]
    of the iteration. *)

Module Lodash.

Definition MAX_SAFE_INTEGER : Z := 9007199254740991.

(** [isLength(value)]: a non-negative integer up to [MAX_SAFE_INTEGER]. *)
Definition isLength (v : value) : bool :=
  match v with
  | Number n => (0 <=? n)%Z && (n <=? MAX_SAFE_INTEGER)%Z
  | _ => false
  end.

(** [getLength(collection)]: the [length] property, [undefined] on
    [null] and [undefined]. *)
Definition getLength (collection : value) : value :=
  if nullish collection then Undefined else prop collection "length".

(** The pairs (element, key) that [_.forEach], [_.map] and [_.reduce] hand
    to their callback, in order.  An array gives its elements with their
    indices.  Anything else with a valid [length] (a string, an object that
    has such a property) is walked by index from 0 to [length - 1]; the
    remaining values give their own properties, keys as strings. *)
Definition entries (collection : value) : list (value * value) :=
  match collection with
  | Arr elems => combine elems (map (fun i => Number (Z.of_nat i)) (seq 0 (List.length elems)))
  | _ =>
      let length := if truthy collection then getLength collection else Number 0 in
      if isLength length then
        match length with
        | Number n =>
            map (fun i => (prop collection (string_of_nat i), Number (Z.of_nat i)))
                (seq 0 (Z.to_nat n))
        | _ => []
        end
      else map (fun kv => (snd kv, Str (fst kv))) (own_props collection)
  end.

Fixpoint foldM {A S : Type} (f : A -> S -> result S) (l : list A) (s : S) : result S :=
  match l with
  | [] => Ok s
  | a :: rest => s' <- f a s ;; foldM f rest s'
  end.

Fixpoint mapM {A B : Type} (f : A -> result B) (l : list A) : result (list B) :=
  match l with
  | [] => Ok []
  | a :: rest => b <- f a ;; bs <- mapM f rest ;; Ok (b :: bs)
  end.

(** [_.forEach(collection, iteratee)], for an iteratee that never returns
    [false]. *)
Definition forEach {S : Type} (collection : value)
  (iteratee : value -> value -> S -> result S) (s : S) : result S :=
  foldM (fun e => iteratee (fst e) (snd e)) (entries collection) s.

(** [_.map(collection, iteratee)]: the array of the results. *)
Definition map (collection : value) (iteratee : value -> value -> result value)
  : result (list value) :=
  mapM (fun e => iteratee (fst e) (snd e)) (entries collection).

(** [_.reduce(collection, iteratee, accumulator)] *)
Definition reduce {S : Type} (collection : value)
  (iteratee : S -> value -> result S) (accumulator : S) : result S :=
  foldM (fun e acc => iteratee acc (fst e)) (entries collection) accumulator.

(** [_.values(object)]: the values of the own enumerable properties. *)
Definition values (object : value) : list value :=
  List.map snd (own_props object).

(** [_.pluck(collection, key)]: [key] read off every element, [undefined]
    where the element is [null] or [undefined]. *)
Definition pluck (collection : value) (key : string) : list value :=
  List.map (fun e => if nullish (fst e) then Undefined else prop (fst e) key)
           (entries collection).

(** [_.extend({}, source)]: a new object with the own enumerable properties
    of [source], in the same order. *)
Definition extend_new (source : value) : list (string * value) :=
  own_props source.

Definition contains (c : ascii) (s : string) : bool :=
  existsb (Ascii.eqb c) (list_ascii_of_string s).

(** A name with neither a dot nor an opening bracket: lodash's
    [reIsDeepProp] cannot match it, so [isKey] takes it for a property
    name. *)
Definition plain_key (s : string) : bool :=
  negb (contains "." s) && negb (contains "[" s).

(** [_.set(object, path, value)] writes one property when the path names a
    property that is already set, is a number, or (not being an array) prints
    as a [plain_key].  For every other path lodash decides with its regular
    expressions whether the path is one property name or a sequence of them
    to walk; [set_path] stands for that part, which this development leaves
    uninterpreted. *)
Definition set (set_path : list (string * value) -> value -> value -> list (string * value))
  (object : list (string * value)) (path : value) (v : value) : list (string * value) :=
  let pathKey := ToString path in
  let isKey := match path with
               | Number _ => true
               | Arr _ => false
               | _ => plain_key pathKey
               end in
  if negb (nullish (prop (Obj object) pathKey)) || isKey
  then set_prop object pathKey v
  else set_path object path v.

End Lodash.

(** ** The host: built-ins taken as given

    [JSON.parse], [JSON.stringify(x, null, indent)] and the deep-path part
    of [_.set] are not defined here: the theorems about [main.js] hold
    whatever they compute. *)
Class Host : Type := {
  JSON_parse : value -> result value;
  JSON_stringify : value -> Z -> value;
  lodash_set_path : list (string * value) -> value -> value -> list (string * value)
}.

(** ** main.js *)

Section Main.
Context `{Host}.

Definition JSON_INDENT_SIZE : Z := 2.

Definition prettyJson (x : value) : value :=
  JSON_stringify x JSON_INDENT_SIZE.

(** Try to pretty print a JSON string, falling back to the original if
    there's a parse error. *)
Definition tryPrettyJson (x : value) : result value :=
  try_catch (j <- JSON_parse x ;; Ok (prettyJson j)) (fun _ => Ok x).

(** [t === s] for a string literal [s] *)
Definition is_string (t : value) (s : string) : bool :=
  match t with
  | Str s' => s' =? s
  | _ => false
  end.

(** Convert traits from a list of objects to an object. *)
Definition traitsToObject (traits : value) : result value :=
  acc <- Lodash.reduce traits (fun acc obj =>
           keys <- Object_keys obj ;;
           let key := ToString (match keys with k :: _ => Str k | [] => Undefined end) in
           v <- get obj key ;;
           Ok (set_prop acc key v)) [] ;;
  Ok (Obj acc).

(** Generate example data for a data type. *)
Definition makeExampleFromType (t name : value) : result value :=
  if is_string t "string" then Ok (Str ("EXAMPLE: " ++ ToString name))
  else if is_string t "number" then Ok (Number 1234567890)
  else Throw (Error ("makeExampleFromType not implemented for type " ++ ToString t)).

(** The callback of the [_.reduce] in [makeExamplesOf]. *)
Definition addParamExample (o : list (string * value)) (v : value)
  : result (list (string * value)) :=
  present <- has "example" v ;;
  example <- (if present : bool then get v "example"
              else t <- get v "type" ;;
                   name <- get v "displayName" ;;
                   makeExampleFromType t name) ;;
  name <- get v "displayName" ;;
  Ok (Lodash.set lodash_set_path o name example).

(** Flatten all the examples for a resource into a list, or generate a JSON
    body example based on the declared parameters, filling in junk data. *)
Definition makeExamplesOf (obj : value) : result value :=
  body <- get obj "body" ;;
  if truthy body then
    examples <- Lodash.map (Arr (Lodash.pluck (Arr (Lodash.values body)) "example"))
                           (fun x _ => tryPrettyJson x) ;;
    Ok (Arr examples)
  else
    params <- get obj "params" ;;
    obj <- Lodash.reduce params addParamExample [] ;;
    Ok (if (0 <? List.length (List.map fst obj))%nat then Arr [Obj obj] else Undefined).

(** The callback of the [_.map] over [responses] in [flattenMethods]: one
    summary object per status code, assigned to by the two nested loops. *)
Definition flattenResponse (methodName : value) (objForCode code : value) : result value :=
  obj <- Lodash.forEach objForCode (fun objForBody _ obj =>
           Lodash.forEach objForBody (fun objForRespType _ obj =>
             example <- get objForRespType "example" ;;
             let obj := set_prop obj "example" example in
             let obj := set_prop obj "code" code in
             let obj := set_prop obj "method" methodName in
             Ok obj) obj) [] ;;
  Ok (Obj obj).

(** The callback of the [_.map] over [methods] in [flattenMethods]. *)
Definition flattenMethod (objForMethod : value) : result value :=
  let obj := Lodash.extend_new objForMethod in
  methodName <- get objForMethod "method" ;;
  requestExamples <- makeExamplesOf (Obj obj) ;;
  let obj := set_prop obj "requestExamples" requestExamples in
  declared <- get objForMethod "responses" ;;
  responses <- Lodash.map declared (flattenResponse methodName) ;;
  let obj := set_prop obj "responses" (Arr responses) in
  Ok (Obj obj).

(** Flattens the various methods defined on a resource, so we can have a
    list at the end, making it easy for the template. *)
Definition flattenMethods (methods : value) : result value :=
  flat <- Lodash.map methods (fun objForMethod _ => flattenMethod objForMethod) ;;
  Ok (Arr flat).

(** The inner function [recur] of [flattenResources].  [xs] is the array the
    closure pushes to.  [stack] bounds the depth of nested calls;
    [flattenResources] starts with more than the tree is deep. *)
Fixpoint recur (stack : nat) (parents : list value) (res : value) (xs : list value)
  : result (list value) :=
  match stack with
  | O => Throw RangeError
  | S stack' =>
      if negb (truthy res) then Ok xs
      else
        let clean := Lodash.extend_new res in
        let clean := delete_prop clean "resources" in
        methods <- get res "methods" ;;
        methods <- flattenMethods methods ;;
        let clean := set_prop clean "methods" methods in
        let clean := set_prop clean "basePath"
                       (Str (join (Lodash.pluck (Arr parents) "relativeUri") "")) in
        path <- get res "relativeUri" ;;
        let clean := set_prop clean "path" path in
        let xs := (xs ++ [Obj clean])%list in
        let newParents := (parents ++ [res])%list in
        resources <- get res "resources" ;;
        Lodash.forEach resources (fun r _ xs => recur stack' newParents r xs) xs
  end.

(** Flatten RAML's nested resources into a list of resources. *)
Definition flattenResources (res traits : value) : result (list value) :=
  recur (S (height res)) [] res [].

(** Flatten RAML's nested hierarchy of traits and resources. *)
Definition flattenHierarchy (root : value) : result value :=
  title <- get root "title" ;;
  declared <- get root "traits" ;;
  traits <- traitsToObject declared ;;
  resources <- flattenResources root declared ;;
  title <- get root "title" ;;
  Ok (Obj [("title", title); ("traits", traits); ("resources", Arr resources)]).

End Main.

Open Scope list_scope.

(** ** A reference host

    An executable [Host], used to run the model on examples: JSON texts
    over the values of this development (a text with a number that is not an
    integer has no value here and is rejected), and the deep-path part of
    [_.set] for dotted paths without brackets. *)

Module Reference.

Definition quote : ascii := ascii_of_nat 34.
Definition backslash : ascii := ascii_of_nat 92.
Definition newline : ascii := ascii_of_nat 10.

Definition text (cs : list ascii) : string := string_of_list_ascii cs.

(** *** JSON.stringify *)

Definition hex (n : nat) : ascii :=
  nth n (list_ascii_of_string "0123456789abcdef") "0"%char.

(** QuoteJSONString on one character. *)
Definition escape (c : ascii) : list ascii :=
  let n := nat_of_ascii c in
  if (n =? 34)%nat then [backslash; quote]
  else if (n =? 92)%nat then [backslash; backslash]
  else if (n =? 8)%nat then [backslash; "b"%char]
  else if (n =? 9)%nat then [backslash; "t"%char]
  else if (n =? 10)%nat then [backslash; "n"%char]
  else if (n =? 12)%nat then [backslash; "f"%char]
  else if (n =? 13)%nat then [backslash; "r"%char]
  else if (n <? 32)%nat then [backslash; "u"%char; "0"%char; "0"%char; hex (n / 16); hex (n mod 16)]
  else [c].

Definition quoted (s : string) : string :=
  text (quote :: flat_map escape (list_ascii_of_string s) ++ [quote]).

Definition line_break : string := String newline EmptyString.

(** The frame of SerializeJSONArray and SerializeJSONObject around the
    serialised members. *)
Definition bracketed (opening closing gap indent : string) (members : list string) : string :=
  match members with
  | [] => (opening ++ closing)%string
  | _ =>
      if (gap =? "")%string then (opening ++ String.concat "," members ++ closing)%string
      else (opening ++ line_break ++ (indent ++ gap)
            ++ String.concat ("," ++ line_break ++ (indent ++ gap)) members
            ++ line_break ++ indent ++ closing)%string
  end.

(** SerializeJSONProperty: [None] is [undefined]. *)
Fixpoint serialize (gap indent : string) (v : value) : option string :=
  match v with
  | Undefined => None
  | Null => Some "null"
  | Boolean true => Some "true"
  | Boolean false => Some "false"
  | Number n => Some (string_of_Z n)
  | Str s => Some (quoted s)
  | Arr elems =>
      Some (bracketed "[" "]" gap indent
              (List.map (fun x => match serialize gap (indent ++ gap) x with
                                  | Some s => s
                                  | None => "null"
                                  end) elems))
  | Obj props =>
      Some (bracketed "{" "}" gap indent
              (flat_map (fun kv => match kv with
                                   | (k, x) =>
                                       match serialize gap (indent ++ gap) x with
                                       | Some s =>
                                           [(quoted k ++ ":"
                                             ++ (if (gap =? "")%string then "" else " ")
                                             ++ s)%string]
                                       | None => []
                                       end
                                   end) props))
  end.

Definition spaces (n : nat) : string := text (repeat " "%char n).

(** [JSON.stringify(x, null, indent)] *)
Definition stringify (x : value) (indent : Z) : value :=
  match serialize (spaces (Nat.min 10 (Z.to_nat indent))) "" x with
  | Some s => Str s
  | None => Undefined
  end.

(** *** JSON.parse *)

Definition is_ws (c : ascii) : bool :=
  let n := nat_of_ascii c in
  (n =? 32)%nat || (n =? 9)%nat || (n =? 10)%nat || (n =? 13)%nat.

Fixpoint skip_ws (s : list ascii) : list ascii :=
  match s with
  | c :: rest => if is_ws c then skip_ws rest else s
  | [] => []
  end.

Definition digit (c : ascii) : option Z :=
  let n := nat_of_ascii c in
  if (48 <=? n)%nat && (n <=? 57)%nat then Some (Z.of_nat (n - 48)) else None.

(** The digits at the head of [s]: their number, their value after the
    digits [acc] already read, and the rest. *)
Fixpoint digits (acc : Z) (count : nat) (s : list ascii) : Z * nat * list ascii :=
  match s with
  | c :: rest =>
      match digit c with
      | Some d => digits (10 * acc + d) (S count) rest
      | None => (acc, count, s)
      end
  | [] => (acc, count, s)
  end.

(** A JSON number; only an integer value is a [value]. *)
Definition parse_number (s : list ascii) : option (value * list ascii) :=
  let (negative, s) := match s with
                       | "-"%char :: rest => (true, rest)
                       | _ => (false, s)
                       end in
  let '(int, n, s1) := digits 0 0 s in
  let leading_zero := match s with "0"%char :: _ => true | _ => false end in
  if (n =? 0)%nat || (leading_zero && negb (n =? 1)%nat) then None
  else
    let frac := match s1 with
                | "."%char :: rest =>
                    let '(m, k, s2) := digits int 0 rest in
                    if (k =? 0)%nat then None else Some (m, k, s2)
                | _ => Some (int, 0, s1)
                end in
    match frac with
    | None => None
    | Some (mantissa, scale, s2) =>
        let expo := match s2 with
                    | c :: rest =>
                        if Ascii.eqb c "e" || Ascii.eqb c "E" then
                          let (minus, rest') := match rest with
                                                | "-"%char :: r => (true, r)
                                                | "+"%char :: r => (false, r)
                                                | _ => (false, rest)
                                                end in
                          let '(e, k, s3) := digits 0 0 rest' in
                          if (k =? 0)%nat then None
                          else Some ((if minus then - e else e)%Z, s3)
                        else Some (0%Z, s2)
                    | [] => Some (0%Z, s2)
                    end in
        match expo with
        | None => None
        | Some (e, s3) =>
            let shift := (e - Z.of_nat scale)%Z in
            let magnitude :=
              if (0 <=? shift)%Z then Some (mantissa * 10 ^ shift)%Z
              else if (mantissa mod 10 ^ (- shift) =? 0)%Z
                   then Some (mantissa / 10 ^ (- shift))%Z
                   else None in
            match magnitude with
            | Some m => Some (Number (if negative then - m else m), s3)
            | None => None
            end
        end
    end.

Definition hex_value (c : ascii) : option nat :=
  let n := nat_of_ascii c in
  if (48 <=? n)%nat && (n <=? 57)%nat then Some (n - 48)
  else if (97 <=? n)%nat && (n <=? 102)%nat then Some (n - 87)
  else if (65 <=? n)%nat && (n <=? 70)%nat then Some (n - 55)
  else None.

(** The characters of a JSON string after its opening quote. *)
Fixpoint parse_chars (s : list ascii) (acc : list ascii) : option (string * list ascii) :=
  match s with
  | [] => None
  | c :: rest =>
      if Ascii.eqb c quote then Some (text (rev acc), rest)
      else if (nat_of_ascii c <? 32)%nat then None
      else if Ascii.eqb c backslash then
        match rest with
        | "u"%char :: a :: b :: c1 :: d :: rest' =>
            match hex_value a, hex_value b, hex_value c1, hex_value d with
            | Some 0, Some 0, Some h, Some l => parse_chars rest' (ascii_of_nat (16 * h + l) :: acc)
            | _, _, _, _ => None
            end
        | e :: rest' =>
            let plain x := parse_chars rest' (x :: acc) in
            if Ascii.eqb e quote then plain quote
            else if Ascii.eqb e backslash then plain backslash
            else if Ascii.eqb e "/" then plain "/"%char
            else if Ascii.eqb e "b" then plain (ascii_of_nat 8)
            else if Ascii.eqb e "f" then plain (ascii_of_nat 12)
            else if Ascii.eqb e "n" then plain (ascii_of_nat 10)
            else if Ascii.eqb e "r" then plain (ascii_of_nat 13)
            else if Ascii.eqb e "t" then plain (ascii_of_nat 9)
            else None
        | [] => None
        end
      else parse_chars rest (c :: acc)
  end.

Definition starts_with (word : string) (s : list ascii) : option (list ascii) :=
  let w := list_ascii_of_string word in
  if list_eq_dec Ascii.ascii_dec (firstn (List.length w) s) w
  then Some (skipn (List.length w) s) else None.

(** The JSON grammar.  [budget] bounds the number of nested and successive
    elements; [parse] gives it more than the text has characters. *)
Fixpoint parse_value (budget : nat) (s : list ascii) : option (value * list ascii) :=
  match budget with
  | O => None
  | S budget' =>
      match skip_ws s with
      | [] => None
      | c :: rest =>
          if Ascii.eqb c quote then
            match parse_chars rest [] with
            | Some (str, s') => Some (Str str, s')
            | None => None
            end
          else if Ascii.eqb c "[" then
            match skip_ws rest with
            | "]"%char :: s' => Some (Arr [], s')
            | _ => match parse_elements budget' rest with
                   | Some (elems, s') => Some (Arr elems, s')
                   | None => None
                   end
            end
          else if Ascii.eqb c "{" then
            match skip_ws rest with
            | "}"%char :: s' => Some (Obj [], s')
            | _ => match parse_members budget' rest [] with
                   | Some (props, s') => Some (Obj props, s')
                   | None => None
                   end
            end
          else
            match starts_with "null" (c :: rest), starts_with "true" (c :: rest),
                  starts_with "false" (c :: rest) with
            | Some s', _, _ => Some (Null, s')
            | _, Some s', _ => Some (Boolean true, s')
            | _, _, Some s' => Some (Boolean false, s')
            | None, None, None => parse_number (c :: rest)
            end
      end
  end
with parse_elements (budget : nat) (s : list ascii) : option (list value * list ascii) :=
  match budget with
  | O => None
  | S budget' =>
      match parse_value budget' s with
      | Some (v, s') =>
          match skip_ws s' with
          | ","%char :: s'' =>
              match parse_elements budget' s'' with
              | Some (vs, s3) => Some (v :: vs, s3)
              | None => None
              end
          | "]"%char :: s'' => Some ([v], s'')
          | _ => None
          end
      | None => None
      end
  end
with parse_members (budget : nat) (s : list ascii) (acc : list (string * value))
  : option (list (string * value) * list ascii) :=
  match budget with
  | O => None
  | S budget' =>
      match skip_ws s with
      | c :: rest =>
          if Ascii.eqb c quote then
            match parse_chars rest [] with
            | Some (k, s1) =>
                match skip_ws s1 with
                | ":"%char :: s2 =>
                    match parse_value budget' s2 with
                    | Some (v, s3) =>
                        let acc := set_prop acc k v in
                        match skip_ws s3 with
                        | ","%char :: s4 => parse_members budget' s4 acc
                        | "}"%char :: s4 => Some (acc, s4)
                        | _ => None
                        end
                    | None => None
                    end
                | _ => None
                end
            | None => None
            end
          else None
      | [] => None
      end
  end.

(** [JSON.parse(x)] *)
Definition parse (x : value) : result value :=
  let s := list_ascii_of_string (ToString x) in
  match parse_value (2 * List.length s + 2) s with
  | Some (v, rest) =>
      match skip_ws rest with
      | [] => Ok v
      | _ => Throw SyntaxError
      end
  | None => Throw SyntaxError
  end.

(** *** The deep-path part of [_.set], for dotted paths *)

(** The pieces of [s] between occurrences of [sep]. *)
Fixpoint split_on (sep : ascii) (s : list ascii) (piece : list ascii) : list string :=
  match s with
  | [] => [text (rev piece)]
  | c :: rest =>
      if Ascii.eqb c sep then text (rev piece) :: split_on sep rest []
      else split_on sep rest (c :: piece)
  end.

(** [toPath] on a string without brackets: the non-empty pieces between
    dots. *)
Definition toPath (s : string) : list string :=
  filter (fun piece => negb (piece =? "")%string) (split_on "."%char (list_ascii_of_string s) []).

(** [isIndex] on a path segment: all digits. *)
Definition isIndex (segment : string) : bool :=
  negb (segment =? "")%string
  && forallb (fun c => match digit c with Some _ => true | None => false end)
             (list_ascii_of_string segment).

(** Writing the element [n] of an array; the elements skipped over read
    [undefined]. *)
Definition write_elem (elems : list value) (n : nat) (v : value) : list value :=
  if (n <? List.length elems)%nat then firstn n elems ++ v :: skipn (S n) elems
  else elems ++ repeat Undefined (n - List.length elems) ++ [v].

(** The loop of [_.set] along [path] from [nested]: it descends through
    objects and arrays, creates what is missing (an array before a segment
    that is an index, an object otherwise) and assigns [v] at the last
    segment.  A primitive on the way is left as it is, and so is an array
    where the segment is not an index. *)
Fixpoint walk (path : list string) (v : value) (nested : value) : value :=
  match path with
  | [] => nested
  | key :: rest =>
      let current := if nullish nested then Undefined else prop nested key in
      let updated :=
        match rest with
        | [] => v
        | next :: _ =>
            walk rest v (if nullish current
                         then (if isIndex next then Arr [] else Obj [])
                         else current)
        end in
      match nested with
      | Obj props => Obj (set_prop props key updated)
      | Arr elems =>
          match index_of_key key with
          | Some n => Arr (write_elem elems (N.to_nat n) updated)
          | None => nested
          end
      | _ => nested
      end
  end.

(** What [_.set] does with a path that [Lodash.set] does not settle: a
    string that is a property of the object names that property; any other
    string without brackets is split at its dots and walked.  (Paths with
    brackets and array paths are not interpreted: the object stays as it
    is.) *)
Definition set_path (object : list (string * value)) (path v : value)
  : list (string * value) :=
  match path with
  | Arr _ | Obj _ => object
  | _ =>
      let pathKey := ToString path in
      if Lodash.contains "["%char pathKey then object
      else match lookup pathKey object with
           | Some _ => set_prop object pathKey v
           | None =>
               match walk (toPath pathKey) v (Obj object) with
               | Obj props => props
               | _ => object
               end
           end
  end.

End Reference.

Definition reference_host : Host := {|
  JSON_parse := Reference.parse;
  JSON_stringify := Reference.stringify;
  lodash_set_path := Reference.set_path
|}.

(** ** The template helpers

    The helpers [registerHelpersAndPartials] hands to Handlebars: [json],
    [response_code], [json_from_string] and [markdown].  The libraries they
    call (highlight.js, marked, Handlebars) are taken as given, and so is the
    text of [templates/invalid_json.html]. *)
Class Renderer : Type := {
  hljs_highlight : string -> value -> result value;
  marked : value -> result value;
  escapeExpression : value -> string;
  JSON_PARSE_ERROR : string
}.

(** What a helper returns: a string, which Handlebars escapes when it
    prints it, or [new handlebars.SafeString(x)], which it prints as it
    is. *)
Inductive rendered : Type :=
| Text (s : string)
| SafeString (x : value).

(** ToNumber, as the division of [response_code] applies it, where the
    result is an integer: a number is itself, [null] is 0, a boolean 0 or 1,
    the empty string 0, and a string of decimal digits its value when that is
    at most [MAX_SAFE_INTEGER].  [None] is everything else: NaN, a fraction,
    or a text this development does not read (signs, blanks, exponents,
    hexadecimal). *)
Definition ToNumber (v : value) : option Z :=
  match v with
  | Number n => Some n
  | Null => Some 0%Z
  | Boolean b => Some (if b then 1 else 0)%Z
  | Str s =>
      if (s =? "")%string then Some 0%Z
      else match NilZero.uint_of_string s with
           | Some u =>
               let n := Z.of_N (N.of_uint u) in
               if (n <=? Lodash.MAX_SAFE_INTEGER)%Z then Some n else None
           | None => None
           end
  | _ => None
  end.

Section Helpers.
Context `{Host} `{Renderer}.

Definition PRE_OPEN : string :=
  ("<pre class=" ++ String Reference.quote "hljs lang-json"
   ++ String Reference.quote "><code>")%string.

Definition PRE_CLOSE : string := "</code></pre>".

(** The helper [json]. *)
Definition json (data : value) : result rendered :=
  out <- hljs_highlight "json" (prettyJson data) ;;
  code <- get out "value" ;;
  Ok (SafeString (Str (PRE_OPEN ++ ToString code ++ PRE_CLOSE))).

(** The helper [response_code]; [None] where [num / 100] is not an integer
    division this development has (see [ToNumber]). *)
Definition response_code (num : value) : option rendered :=
  match ToNumber num with
  | Some x =>
      let n := (x / 100)%Z in
      Some (SafeString
              (Str ("<span class=" ++ String Reference.quote "response-code response-code-"
                    ++ string_of_Z n ++ "xx" ++ String Reference.quote ">"
                    ++ escapeExpression num ++ "</span>")))
  | None => None
  end.

(** The helper [json_from_string]. *)
Definition json_from_string (data : value) : result rendered :=
  match data with
  | Undefined => Ok (Text "")
  | _ =>
      let (data, err) :=
        match (j <- JSON_parse data ;; Ok (prettyJson j)) with
        | Ok pretty => (pretty, ""%string)
        | Throw _ => (data, JSON_PARSE_ERROR)
        end in
      out <- hljs_highlight "json" data ;;
      code <- get out "value" ;;
      Ok (SafeString (Str (err ++ PRE_OPEN ++ ToString code ++ PRE_CLOSE)))
  end.

(** The helper [markdown]. *)
Definition markdown (md : value) : result rendered :=
  if truthy md then html <- marked md ;; Ok (SafeString html)
  else Ok (Text "").

End Helpers.

(** A renderer to run examples with: the highlighter and [marked] leave the
    text as it is, nothing needs escaping. *)
Definition reference_renderer : Renderer := {|
  hljs_highlight := fun _ code => Ok (Obj [("value", code)]);
  marked := fun md => Ok md;
  escapeExpression := ToString;
  JSON_PARSE_ERROR := "<p>invalid JSON</p>"
|}.

(** ** The same code over a store

    Objects and arrays are cells of a store and values refer to them by
    location, so that a write through one reference is seen through every
    other one.  The functions are those of [main.js] again, line by line;
    the lodash functions read the collection's keys once and its elements
    as they go.  The deep-path part of [_.set] is the dotted-path walk of
    [Reference], which here assigns in place. *)

Module Heap.

Definition loc := nat.

Inductive hval : Type :=
| HUndefined
| HNull
| HBoolean (b : bool)
| HNumber (n : Z)
| HStr (s : string)
| HRef (l : loc).

Inductive cell : Type :=
| HObj (props : list (string * hval))
| HArr (elems : list hval).

(** A location is an index into the store; allocation appends a cell. *)
Definition heap := list cell.

Definition M (A : Type) : Type := heap -> result (A * heap).

Definition ret {A : Type} (a : A) : M A := fun h => Ok (a, h).

Definition throw {A : Type} (e : error) : M A := fun _ => Throw e.

Definition mbind {A B : Type} (m : M A) (k : A -> M B) : M B :=
  fun h => match m h with
           | Ok (a, h') => k a h'
           | Throw e => Throw e
           end.

Declare Scope heap_scope.
Delimit Scope heap_scope with heap.
Notation "x <~ m ;; k" := (mbind m (fun x => k))
  (at level 61, m at next level, right associativity) : heap_scope.
Notation "m ;;; k" := (mbind m (fun _ => k))
  (at level 61, right associativity) : heap_scope.
Open Scope heap_scope.

Fixpoint update {A : Type} (i : nat) (x : A) (l : list A) : list A :=
  match l, i with
  | [], _ => []
  | _ :: rest, O => x :: rest
  | a :: rest, S j => a :: update j x rest
  end.

Definition alloc (c : cell) : M hval := fun h => Ok (HRef (List.length h), h ++ [c]).

Definition load (l : loc) : M cell :=
  fun h => match nth_error h l with
           | Some c => Ok (c, h)
           | None => Throw TypeError
           end.

Definition store (l : loc) (c : cell) : M unit := fun h => Ok (tt, update l c h).

(** The tree a value stands for in a store, read to the depth [fuel]. *)
Fixpoint reify (fuel : nat) (h : heap) (v : hval) : value :=
  match v with
  | HUndefined => Undefined
  | HNull => Null
  | HBoolean b => Boolean b
  | HNumber n => Number n
  | HStr s => Str s
  | HRef l =>
      match fuel with
      | O => Undefined
      | S fuel' =>
          match nth_error h l with
          | Some (HObj props) =>
              Obj (List.map (fun kv => (fst kv, reify fuel' h (snd kv))) props)
          | Some (HArr elems) => Arr (List.map (reify fuel' h) elems)
          | None => Undefined
          end
      end
  end.

(** The tree below [v] in the current store (complete when the store has no
    cycle). *)
Definition view (v : hval) : M value := fun h => Ok (reify (List.length h) h v, h).

(** A value without what it refers to: every reference is some object. *)
Definition shallow (v : hval) : value :=
  match v with
  | HUndefined => Undefined
  | HNull => Null
  | HBoolean b => Boolean b
  | HNumber n => Number n
  | HStr s => Str s
  | HRef _ => Obj []
  end.

(** Brings a tree into the store, children first. *)
Fixpoint import (v : value) : M hval :=
  match v with
  | Undefined => ret HUndefined
  | Null => ret HNull
  | Boolean b => ret (HBoolean b)
  | Number n => ret (HNumber n)
  | Str s => ret (HStr s)
  | Arr elems =>
      elems' <~ (fix each (l : list value) : M (list hval) :=
                   match l with
                   | [] => ret []
                   | x :: rest => x' <~ import x ;; rest' <~ each rest ;; ret (x' :: rest')
                   end) elems ;;
      alloc (HArr elems')
  | Obj props =>
      props' <~ (fix each (l : list (string * value)) : M (list (string * hval)) :=
                   match l with
                   | [] => ret []
                   | (k, x) :: rest =>
                       x' <~ import x ;; rest' <~ each rest ;; ret ((k, x') :: rest')
                   end) props ;;
      alloc (HObj props')
  end.

Definition truthy (v : hval) : bool := Js.truthy (shallow v).
Definition nullish (v : hval) : bool := Js.nullish (shallow v).

Definition or_undefined (found : option hval) : hval :=
  match found with
  | Some v => v
  | None => HUndefined
  end.

Definition hchars (s : string) : list hval :=
  List.map (fun c => HStr (String c EmptyString)) (list_ascii_of_string s).

(** What the cell of an object or of an array holds at [k]. *)
Definition read (c : cell) (k : string) : hval :=
  match c with
  | HObj props => or_undefined (lookup k props)
  | HArr elems =>
      if (k =? "length")%string then HNumber (Z.of_nat (List.length elems))
      else or_undefined (lookup k (indexed elems))
  end.

(** [x.k] and [x[k]] *)
Definition get (x : hval) (k : string) : M hval :=
  match x with
  | HUndefined | HNull => throw TypeError
  | HRef l => c <~ load l ;; ret (read c k)
  | HStr s =>
      ret (if (k =? "length")%string then HNumber (Z.of_nat (String.length s))
           else or_undefined (lookup k (indexed (hchars s))))
  | _ => ret HUndefined
  end.

(** [k in x] *)
Definition has (k : string) (x : hval) : M bool :=
  match x with
  | HRef l =>
      c <~ load l ;;
      ret (match c with
           | HObj props => match lookup k props with Some _ => true | None => false end
           | HArr elems =>
               (k =? "length")%string
               || match lookup k (indexed elems) with Some _ => true | None => false end
           end)
  | _ => throw TypeError
  end.

(** Writing the element [n] of an array; the elements skipped over read
    [undefined]. *)
Definition write_index (elems : list hval) (n : nat) (v : hval) : list hval :=
  if (n <? List.length elems)%nat then update n v elems
  else elems ++ repeat HUndefined (n - List.length elems) ++ [v].

(** [x[k] = v].  On a primitive the assignment does nothing; a named
    property on an array is not represented. *)
Definition assign (x : hval) (k : string) (v : hval) : M unit :=
  match x with
  | HUndefined | HNull => throw TypeError
  | HRef l =>
      c <~ load l ;;
      match c with
      | HObj props => store l (HObj (set_prop props k v))
      | HArr elems =>
          match index_of_key k with
          | Some n => store l (HArr (write_index elems (N.to_nat n) v))
          | None => ret tt
          end
      end
  | _ => ret tt
  end.

(** [delete x[k]] on an object *)
Definition delete (x : hval) (k : string) : M unit :=
  match x with
  | HRef l =>
      c <~ load l ;;
      match c with
      | HObj props => store l (HObj (delete_prop props k))
      | HArr _ => ret tt
      end
  | _ => ret tt
  end.

(** [xs.push(v)] *)
Definition push (xs v : hval) : M unit :=
  match xs with
  | HRef l =>
      c <~ load l ;;
      match c with
      | HArr elems => store l (HArr (elems ++ [v]))
      | HObj _ => throw TypeError
      end
  | _ => throw TypeError
  end.

Definition own_props (x : hval) : M (list (string * hval)) :=
  match x with
  | HRef l =>
      c <~ load l ;;
      ret (match c with
           | HObj props => props
           | HArr elems => indexed elems
           end)
  | HStr s => ret (indexed (hchars s))
  | _ => ret []
  end.

(** [Object.keys(x)] *)
Definition Object_keys (x : hval) : M (list string) :=
  if nullish x then throw TypeError
  else props <~ own_props x ;; ret (List.map fst props).

Definition ToString (x : hval) : M string :=
  tree <~ view x ;; ret (Js.ToString tree).

Fixpoint iterM {A : Type} (f : A -> M unit) (l : list A) : M unit :=
  match l with
  | [] => ret tt
  | a :: rest => f a ;;; iterM f rest
  end.

Fixpoint mapM {A B : Type} (f : A -> M B) (l : list A) : M (list B) :=
  match l with
  | [] => ret []
  | a :: rest => b <~ f a ;; bs <~ mapM f rest ;; ret (b :: bs)
  end.

Fixpoint foldM {A S : Type} (f : S -> A -> M S) (l : list A) (s : S) : M S :=
  match l with
  | [] => ret s
  | a :: rest => s' <~ f s a ;; foldM f rest s'
  end.

(** The keys a lodash iteration walks, fixed when it starts: the indices
    below [length] for an array and anything else with a valid [length], the
    own property names otherwise. *)
Definition iteration_keys (collection : hval) : M (list hval) :=
  length <~ (if truthy collection then get collection "length" else ret (HNumber 0)) ;;
  if Lodash.isLength (shallow length) then
    match length with
    | HNumber n => ret (List.map (fun i => HNumber (Z.of_nat i)) (seq 0 (Z.to_nat n)))
    | _ => ret []
    end
  else props <~ own_props collection ;; ret (List.map (fun kv => HStr (fst kv)) props).

Definition element (collection key : hval) : M hval :=
  k <~ ToString key ;; get collection k.

(** [_.forEach(collection, iteratee)] *)
Definition forEach (collection : hval) (iteratee : hval -> hval -> M unit) : M unit :=
  keys <~ iteration_keys collection ;;
  iterM (fun key => v <~ element collection key ;; iteratee v key) keys.

(** [_.map(collection, iteratee)] *)
Definition map (collection : hval) (iteratee : hval -> hval -> M hval) : M hval :=
  keys <~ iteration_keys collection ;;
  results <~ mapM (fun key => v <~ element collection key ;; iteratee v key) keys ;;
  alloc (HArr results).

(** [_.reduce(collection, iteratee, accumulator)] *)
Definition reduce (collection : hval) (iteratee : hval -> hval -> M hval)
  (accumulator : hval) : M hval :=
  keys <~ iteration_keys collection ;;
  foldM (fun acc key => v <~ element collection key ;; iteratee acc v) keys accumulator.

(** [_.values(object)] *)
Definition values (object : hval) : M hval :=
  props <~ own_props object ;; alloc (HArr (List.map snd props)).

(** [_.pluck(collection, key)] *)
Definition pluck (collection : hval) (key : string) : M hval :=
  map collection (fun x _ => if nullish x then ret HUndefined else get x key).

(** [_.extend({}, source)] *)
Definition extend_new (source : hval) : M hval :=
  props <~ own_props source ;; alloc (HObj props).

(** [array.join(separator)] *)
Definition join (array : hval) (separator : string) : M string :=
  tree <~ view array ;;
  match tree with
  | Arr elems => ret (Js.join elems separator)
  | _ => throw TypeError
  end.

(** [array.concat([x])] *)
Definition concat1 (array x : hval) : M hval :=
  match array with
  | HRef l =>
      c <~ load l ;;
      match c with
      | HArr elems => alloc (HArr (elems ++ [x]))
      | HObj _ => throw TypeError
      end
  | _ => throw TypeError
  end.

(** The loop of [_.set]: descend along [path] from [nested], creating what
    is missing, and assign at the last key. *)
Fixpoint walk (path : list string) (v : hval) (nested : hval) : M unit :=
  if nullish nested then ret tt
  else
    match path with
    | [] => ret tt
    | [key] => assign nested key v
    | key :: (next :: _) as rest =>
        match nested with
        | HRef _ =>
            child <~ get nested key ;;
            (if nullish child then
               created <~ alloc (if Reference.isIndex next then HArr [] else HObj []) ;;
               assign nested key created
             else ret tt) ;;;
            child <~ get nested key ;;
            walk rest v child
        | _ => ret tt
        end
    end.

(** [_.set(object, path, value)] *)
Definition set (object path v : hval) : M unit :=
  if nullish object then ret tt
  else
    pathKey <~ ToString path ;;
    current <~ get object pathKey ;;
    pathTree <~ view path ;;
    let isKey := match pathTree with
                 | Number _ => true
                 | Arr _ => false
                 | _ => Lodash.plain_key pathKey
                 end in
    if negb (nullish current) || isKey then assign object pathKey v
    else
      match pathTree with
      | Arr _ | Obj _ => ret tt
      | _ =>
          if Lodash.contains "["%char pathKey then ret tt
          else
            present <~ has pathKey object ;;
            if present : bool then assign object pathKey v
            else walk (Reference.toPath pathKey) v object
      end.

Section Program.
Context `{Host}.

Definition of_value (v : value) : hval :=
  match v with
  | Null => HNull
  | Boolean b => HBoolean b
  | Number n => HNumber n
  | Str s => HStr s
  | _ => HUndefined
  end.

Definition tryPrettyJson (x : hval) : M hval :=
  tree <~ view x ;;
  match JSON_parse tree with
  | Ok j => ret (of_value (prettyJson j))
  | Throw _ => ret x
  end.

Definition traitsToObject (traits : hval) : M hval :=
  empty <~ alloc (HObj []) ;;
  reduce traits (fun acc obj =>
      keys <~ Object_keys obj ;;
      let key := Js.ToString (match keys with k :: _ => Str k | [] => Undefined end) in
      v <~ get obj key ;;
      assign acc key v ;;;
      ret acc) empty.

Definition makeExampleFromType (t name : hval) : M hval :=
  if is_string (shallow t) "string" then
    n <~ ToString name ;; ret (HStr ("EXAMPLE: " ++ n))
  else if is_string (shallow t) "number" then ret (HNumber 1234567890)
  else
    s <~ ToString t ;;
    throw (Error ("makeExampleFromType not implemented for type " ++ s)).

Definition makeExamplesOf (obj : hval) : M hval :=
  body <~ get obj "body" ;;
  if truthy body then
    schemas <~ values body ;;
    examples <~ pluck schemas "example" ;;
    map examples (fun x _ => tryPrettyJson x)
  else
    params <~ get obj "params" ;;
    empty <~ alloc (HObj []) ;;
    obj <~ reduce params (fun o v =>
             present <~ has "example" v ;;
             example <~ (if present : bool then get v "example"
                         else t <~ get v "type" ;;
                              name <~ get v "displayName" ;;
                              makeExampleFromType t name) ;;
             name <~ get v "displayName" ;;
             set o name example ;;;
             ret o) empty ;;
    keys <~ Object_keys obj ;;
    if (0 <? List.length keys)%nat then alloc (HArr [obj]) else ret HUndefined.

Definition flattenMethods (methods : hval) : M hval :=
  map methods (fun objForMethod _ =>
    obj <~ extend_new objForMethod ;;
    methodName <~ get objForMethod "method" ;;
    requestExamples <~ makeExamplesOf obj ;;
    assign obj "requestExamples" requestExamples ;;;
    declared <~ get objForMethod "responses" ;;
    responses <~ map declared (fun objForCode code =>
        obj <~ alloc (HObj []) ;;
        forEach objForCode (fun objForBody _ =>
          forEach objForBody (fun objForRespType _ =>
            example <~ get objForRespType "example" ;;
            assign obj "example" example ;;;
            assign obj "code" code ;;;
            assign obj "method" methodName)) ;;;
        ret obj) ;;
    assign obj "responses" responses ;;;
    ret obj).

Fixpoint recur (stack : nat) (xs parents res : hval) : M unit :=
  match stack with
  | O => throw RangeError
  | S stack' =>
      if negb (truthy res) then ret tt
      else
        clean <~ extend_new res ;;
        delete clean "resources" ;;;
        methods <~ get res "methods" ;;
        methods <~ flattenMethods methods ;;
        assign clean "methods" methods ;;;
        uris <~ pluck parents "relativeUri" ;;
        basePath <~ join uris "" ;;
        assign clean "basePath" (HStr basePath) ;;;
        path <~ get res "relativeUri" ;;
        assign clean "path" path ;;;
        push xs clean ;;;
        newParents <~ concat1 parents res ;;
        resources <~ get res "resources" ;;
        forEach resources (fun r _ => recur stack' xs newParents r)
  end.

(** [stack] is the depth of calls the engine allows. *)
Definition flattenResources (stack : nat) (res traits : hval) : M hval :=
  xs <~ alloc (HArr []) ;;
  parents <~ alloc (HArr []) ;;
  recur stack xs parents res ;;;
  ret xs.

Definition flattenHierarchy (stack : nat) (root : hval) : M hval :=
  title <~ get root "title" ;;
  declared <~ get root "traits" ;;
  traits <~ traitsToObject declared ;;
  declared <~ get root "traits" ;;
  resources <~ flattenResources stack root declared ;;
  title <~ get root "title" ;;
  alloc (HObj [("title", title); ("traits", traits); ("resources", resources)]).

(** Running [flattenHierarchy] on a document given as a tree: the store
    the document is brought into, the store after the call, and the result
    read back. *)
Definition run (stack : nat) (document : value) : result (heap * heap * value) :=
  match import document [] with
  | Ok (root, before) =>
      match (out <~ flattenHierarchy stack root ;; view out) before with
      | Ok (tree, after) => Ok (before, after, tree)
      | Throw e => Throw e
      end
  | Throw e => Throw e
  end.

End Program.

(** *** What a call reaches and what it writes

    The cells of the document are those of the store the call starts from;
    every cell allocated later lies above them. *)

Definition cell_values (c : cell) : list hval :=
  match c with
  | HObj props => List.map snd props
  | HArr elems => elems
  end.

(** [below n v]: [v] is a primitive or refers to a cell under [n]. *)
Definition below (n : nat) (v : hval) : bool :=
  match v with
  | HRef l => (l <? n)%nat
  | _ => true
  end.

(** [above n v]: [v] is a primitive or refers to a cell at [n] or later. *)
Definition above (n : nat) (v : hval) : bool :=
  match v with
  | HRef l => (n <=? l)%nat
  | _ => true
  end.

Definition primitive (v : hval) : bool :=
  match v with
  | HRef _ => false
  | _ => true
  end.

(** Every reference held in the store is to one of its cells. *)
Definition closed (h : heap) : bool :=
  forallb (fun c => forallb (below (List.length h)) (cell_values c)) h.

(** No [example] in the store is an object or an array. *)
Definition literal_examples (h : heap) : bool :=
  forallb (fun c => primitive (read c "example")) h.

(** [reads m]: [m] leaves the store as it is. *)
Definition reads {A : Type} (m : M A) : Prop :=
  forall h a h', m h = Ok (a, h') -> h' = h.

(** [keeps h0 m Q]: run in a store that begins with [h0], [m] leaves the
    cells of [h0] as they are, and what it returns satisfies [Q]. *)
Definition keeps (h0 : heap) {A : Type} (m : M A) (Q : A -> Prop) : Prop :=
  forall h a h',
    firstn (List.length h0) h = h0 -> m h = Ok (a, h') ->
    firstn (List.length h0) h' = h0 /\ Q a.

(** [sealed n h]: the cells at [n] and later refer to nothing under [n]. *)
Definition sealed (n : nat) (h : heap) : Prop :=
  forall l c, n <= l -> nth_error h l = Some c ->
              forallb (above n) (cell_values c) = true.

(** [seals h1 m Q]: as [keeps], for a store whose cells after [h1] are
    sealed off from it, and stay so. *)
Definition seals (h1 : heap) {A : Type} (m : M A) (Q : A -> Prop) : Prop :=
  forall h a h',
    firstn (List.length h1) h = h1 -> sealed (List.length h1) h -> m h = Ok (a, h') ->
    firstn (List.length h1) h' = h1 /\ sealed (List.length h1) h' /\ Q a.

End Heap.

(** ** The notions of the specification

    What the statements below are written in: the children of a node, the
    record of a node, the nodes of a tree and their ancestors, what a
    parameter contributes, the summary of a response. *)

(** The nodes [recur] is called on below [res]: the elements of
    [res.resources] as [_.forEach] visits them. *)
Definition children (res : value) : list value :=
  List.map fst (Lodash.entries (prop res "resources")).

(** The record [recur] pushes for the node [res] below the chain [parents],
    once [flattenMethods] has returned [methods]: a copy of [res] without
    [resources], with [methods], [basePath] and [path] assigned. *)
Definition record (parents : list value) (res methods : value) : value :=
  Obj (set_prop
         (set_prop
            (set_prop (delete_prop (Lodash.extend_new res) "resources") "methods" methods)
            "basePath" (Str (join (Lodash.pluck (Arr parents) "relativeUri") "")))
         "path" (prop res "relativeUri")).

Section Subtree.
Context `{Host}.

(** The records one call [recur(parents, res)] pushes. *)
Definition subtree (parents : list value) (res : value) : result (list value) :=
  recur (S (height res)) parents res [].

End Subtree.

(** *** The resource tree *)

(** [node_at root ancestors n]: [n] is a node of the tree rooted at [root],
    and [ancestors] is the chain of nodes from [root] down to the parent of
    [n] (empty when [n] is [root] itself). *)
Inductive node_at : value -> list value -> value -> Prop :=
| node_root (root : value) : node_at root [] root
| node_below (root c : value) (ancestors : list value) (n : value) :
    truthy root = true -> In c (children root) -> node_at c ancestors n ->
    node_at root (root :: ancestors) n.

(** [tree_nodes res n]: [res] is the root of a tree of [n] nodes, none of
    them [null] (or otherwise falsy). *)
#[warnings="-register-all"]
Inductive tree_nodes : value -> nat -> Prop :=
| tree_node (res : value) (sizes : list nat) :
    truthy res = true -> Forall2 tree_nodes (children res) sizes ->
    tree_nodes res (S (list_sum sizes)).


(** The URI of a node as the source tree gives it: the [relativeUri] of the
    nodes from the root down to the node itself, joined. *)
Definition absoluteUri (ancestors : list value) (n : value) : string :=
  join (List.map (fun a => prop a "relativeUri") (ancestors ++ [n])) "".


(** *** Parameters *)




(** The error [makeExampleFromType] raises for the type [t]. *)
Definition UnsupportedParameterType (t : value) : error :=
  Error ("makeExampleFromType not implemented for type " ++ ToString t).




Section Composite.
Context `{Host}.


End Composite.

(** The response summary built from a content-type schema's example. *)
Definition summary (example code methodName : value) : value :=
  Obj [("example", example); ("code", code); ("method", methodName)].

(** The content-type schemas the two nested loops of [flattenMethods] visit
    for one status code, in order: for each body-variant of [objForCode],
    each element of the variant. *)
Definition visited (objForCode : value) : list value :=
  flat_map (fun objForBody => List.map fst (Lodash.entries objForBody))
           (List.map fst (Lodash.entries objForCode)).

(** The assignment of the innermost loop. *)
Definition assign_summary (methodName code schema : value) (obj : list (string * value))
  : result (list (string * value)) :=
  example <- get schema "example" ;;
  Ok (set_prop (set_prop (set_prop obj "example" example) "code" code) "method" methodName).

(** *** Errors *)

(** The errors the flattening raises by itself: the [TypeError] of a read
    on [null] or [undefined] or of [in] on a primitive, and the error of
    [makeExampleFromType] for some type. *)
Definition raised_by_flattening (e : error) : Prop :=
  e = TypeError \/ exists t, e = UnsupportedParameterType t.

(** ** The model at work: example documents *)

Definition json_a1 : string := ("{" ++ String Reference.quote "a" ++ String Reference.quote ":1}")%string.

(** A method with two request bodies, one of them JSON. *)
Definition example_post : value :=
  Obj [("method", Str "post");
       ("body", Obj [("application/json", Obj [("example", Str json_a1)]);
                     ("text/plain", Obj [("example", Str "not json")])]);
       ("responses",
        Obj [("200", Obj [("body", Obj [("application/json", Obj [("example", Str "[1]")]);
                                        ("text/xml", Obj [("example", Str "<ok/>")])])])])].

(** A method with neither body nor parameters. *)
Definition example_get : value := Obj [("method", Str "get")].

(** The two-level tree of the end-to-end example. *)
Definition example_leaf : value :=
  Obj [("relativeUri", Str "/b"); ("methods", Arr [example_get; example_post])].

Definition example_root : value :=
  Obj [("relativeUri", Str "/a"); ("resources", Arr [example_leaf])].

Definition example_out : list value :=
  Eval vm_compute in
    match @flattenResources reference_host example_root Undefined with
    | Ok out => out
    | Throw _ => []
    end.




(** A parameter whose example is an object, followed by a parameter whose
    dotted display name leads into it. *)
Definition aliasing_document : value :=
  Obj [("title", Str "users");
       ("methods",
        Arr [Obj [("method", Str "post");
                  ("params",
                   Arr [Obj [("displayName", Str "user"); ("type", Str "object");
                             ("example", Obj [("id", Number 1)])];
                        Obj [("displayName", Str "user.name"); ("type", Str "string")]])]])].

(** The same method with a number for the example: every [example] of the
    document is a literal. *)
Definition literal_document : value :=
  Obj [("title", Str "users");
       ("relativeUri", Str "/users");
       ("methods",
        Arr [Obj [("method", Str "post");
                  ("params",
                   Arr [Obj [("displayName", Str "user.id"); ("type", Str "number");
                             ("example", Number 7)];
                        Obj [("displayName", Str "user.name"); ("type", Str "string")]])]]);
       ("resources", Arr [example_leaf])].

(** A document whose one method has a parameter of a type no placeholder
    exists for. *)
Definition unsupported_document : value :=
  Obj [("title", Str "flags");
       ("resources",
        Arr [Obj [("relativeUri", Str "/flags");
                  ("methods",
                   Arr [Obj [("method", Str "put");
                             ("params",
                              Arr [Obj [("displayName", Str "on");
                                        ("type", Str "boolean")]])]])]])].

(** Two traits, the first one with a second key. *)
Definition example_traits : list (list (string * value)) :=
  [[("secured", Obj [("description", Str "needs a token")]);
    ("usage", Str "apply to any method")];
   [("paged", Obj [("description", Str "takes a page number")])]].

(** A document with a title, traits and the two-level tree. *)
Definition example_document : value :=
  Obj [("title", Str "example");
       ("traits", Arr (List.map Obj example_traits));
       ("relativeUri", Str "/a");
       ("resources", Arr [example_leaf])].

(** A response with a body and, after it, a description. *)
Definition example_described : value :=
  Obj [("body", Obj [("application/json", Obj [("example", Str "[1]")])]);
       ("description", Str "OK")].

(** A response whose content type has nothing under it. *)
Definition example_bare : value :=
  Obj [("body", Obj [("application/json", Null)])].

(** * Proofs *)

(** ** Properties of the object operations *)

Section ObjectFacts.

Lemma lookup_app (k : string) (ps qs : list (string * value)) :
  lookup k (ps ++ qs) = match lookup k ps with Some v => Some v | None => lookup k qs end.
Proof.
  induction ps as [|[k' v'] ps IH]; simpl; [reflexivity|].
  destruct (k' =? k); [reflexivity | exact IH].
Qed.

Lemma lookup_replace_eq (k : string) (v : value) (ps : list (string * value)) :
  lookup k ps <> None -> lookup k (replace k v ps) = Some v.
Proof.
  induction ps as [|[k' v'] ps IH]; simpl; intros Hk; [congruence|].
  destruct (k' =? k) eqn:E; simpl; rewrite E; [reflexivity | apply IH, Hk].
Qed.

Lemma lookup_replace_ne (k k' : string) (v : value) (ps : list (string * value)) :
  k <> k' -> lookup k' (replace k v ps) = lookup k' ps.
Proof.
  intros Hne. induction ps as [|[k0 v0] ps IH]; simpl; [reflexivity|].
  destruct (k0 =? k) eqn:E; simpl.
  - apply String.eqb_eq in E. subst k0.
    destruct (k =? k') eqn:E'; [apply String.eqb_eq in E'; contradiction | reflexivity].
  - destruct (k0 =? k'); [reflexivity | exact IH].
Qed.

Lemma lookup_insert_index_eq (n : N) (k : string) (v : value) (ps : list (string * value)) :
  lookup k ps = None -> lookup k (insert_index n k v ps) = Some v.
Proof.
  induction ps as [|[k' v'] ps IH]; simpl; intros Hk.
  - now rewrite String.eqb_refl.
  - destruct (k' =? k) eqn:E; [discriminate|].
    destruct (index_of_key k') as [n'|]; [destruct (n' <? n)%N|]; simpl;
      rewrite ?E, ?String.eqb_refl; auto.
Qed.

Lemma lookup_insert_index_ne (n : N) (k k' : string) (v : value) (ps : list (string * value)) :
  k <> k' -> lookup k' (insert_index n k v ps) = lookup k' ps.
Proof.
  intros Hne. apply String.eqb_neq in Hne.
  induction ps as [|[k0 v0] ps IH]; simpl.
  - now rewrite Hne.
  - destruct (index_of_key k0) as [n'|]; [destruct (n' <? n)%N|]; simpl;
      rewrite ?Hne; try reflexivity.
    destruct (k0 =? k'); [reflexivity | exact IH].
Qed.

(** Reading back the property just written. *)
Lemma lookup_set_prop_eq (ps : list (string * value)) (k : string) (v : value) :
  lookup k (set_prop ps k v) = Some v.
Proof.
  unfold set_prop. destruct (lookup k ps) eqn:E.
  - apply lookup_replace_eq. congruence.
  - destruct (index_of_key k).
    + now apply lookup_insert_index_eq.
    + rewrite lookup_app, E. simpl. now rewrite String.eqb_refl.
Qed.

(** A write leaves the other properties as they were. *)
Lemma lookup_set_prop_ne (ps : list (string * value)) (k k' : string) (v : value) :
  k <> k' -> lookup k' (set_prop ps k v) = lookup k' ps.
Proof.
  intros Hne. unfold set_prop. destruct (lookup k ps).
  - now apply lookup_replace_ne.
  - destruct (index_of_key k).
    + now apply lookup_insert_index_ne.
    + rewrite lookup_app. simpl. apply String.eqb_neq in Hne. rewrite Hne.
      now destruct (lookup k' ps).
Qed.


Lemma lookup_delete_prop_eq (ps : list (string * value)) (k : string) :
  lookup k (delete_prop ps k) = None.
Proof.
  induction ps as [|[k' v'] ps IH]; simpl; [reflexivity|].
  destruct (k' =? k) eqn:E; simpl; [exact IH | now rewrite E].
Qed.

Lemma lookup_delete_prop_ne (ps : list (string * value)) (k k' : string) :
  k <> k' -> lookup k' (delete_prop ps k) = lookup k' ps.
Proof.
  intros Hne. induction ps as [|[k0 v0] ps IH]; simpl; [reflexivity|].
  destruct (k0 =? k) eqn:E; simpl.
  - apply String.eqb_eq in E. subst k0.
    apply String.eqb_neq in Hne. now rewrite Hne.
  - destruct (k0 =? k'); [reflexivity | exact IH].
Qed.

Lemma lookup_In (k : string) (v : value) (ps : list (string * value)) :
  lookup k ps = Some v -> In (k, v) ps.
Proof.
  induction ps as [|[k' v'] ps IH]; simpl; [discriminate|].
  destruct (k' =? k) eqn:E.
  - apply String.eqb_eq in E. intros [= ->]. left. now subst.
  - intros Hl. right. now apply IH.
Qed.

End ObjectFacts.

(** ** Properties of the iteration functions *)

Section IterationFacts.

Lemma truthy_not_nullish (v : value) : truthy v = true -> nullish v = false.
Proof. destruct v; simpl; congruence. Qed.

Lemma get_truthy (v : value) (k : string) : truthy v = true -> get v k = Ok (prop v k).
Proof. intros Ht. unfold get. now rewrite truthy_not_nullish. Qed.

Lemma foldM_app {A S : Type} (f : A -> S -> result S) (l1 l2 : list A) (s : S) :
  Lodash.foldM f (l1 ++ l2) s = (s' <- Lodash.foldM f l1 s ;; Lodash.foldM f l2 s').
Proof.
  revert s. induction l1 as [|a l1 IH]; intros s; simpl; [reflexivity|].
  destruct (f a s); simpl; [apply IH | reflexivity].
Qed.

Lemma foldM_ext {A S : Type} (f g : A -> S -> result S) (l : list A) (s : S) :
  (forall a s', In a l -> f a s' = g a s') -> Lodash.foldM f l s = Lodash.foldM g l s.
Proof.
  revert s. induction l as [|a l IH]; intros s Hfg; simpl; [reflexivity|].
  rewrite Hfg by now left.
  destruct (g a s); simpl; [|reflexivity].
  apply IH. intros a' s' Hin. apply Hfg. now right.
Qed.

(** Iterating over an array ignores the indices when the callback does. *)
Lemma foldM_combine {A B S : Type} (f : A -> S -> result S) (l : list A) (ks : list B) (s : S) :
  List.length l <= List.length ks ->
  Lodash.foldM (fun e => f (fst e)) (combine l ks) s = Lodash.foldM f l s.
Proof.
  revert ks s. induction l as [|a l IH]; intros ks s Hlen; simpl; [reflexivity|].
  destruct ks as [|k ks]; simpl in *; [lia|].
  destruct (f a s); simpl; [|reflexivity].
  apply IH. lia.
Qed.

Lemma mapM_combine {A B C : Type} (f : A -> result C) (l : list A) (ks : list B) :
  List.length l <= List.length ks ->
  Lodash.mapM (fun e => f (fst e)) (combine l ks) = Lodash.mapM f l.
Proof.
  revert ks. induction l as [|a l IH]; intros ks Hlen; simpl; [reflexivity|].
  destruct ks as [|k ks]; simpl in *; [lia|].
  rewrite IH by lia. reflexivity.
Qed.

Lemma mapM_pure {A B : Type} (f : A -> B) (l : list A) :
  Lodash.mapM (fun a => Ok (f a)) l = Ok (List.map f l).
Proof.
  induction l as [|a l IH]; simpl; [reflexivity|]. now rewrite IH.
Qed.

Lemma index_keys_length (n : nat) :
  List.length (List.map (fun i => Number (Z.of_nat i)) (seq 0 n)) = n.
Proof. now rewrite length_map, length_seq. Qed.

(** [_.reduce] over an array is a fold over its elements. *)
Lemma reduce_Arr {S : Type} (elems : list value) (f : S -> value -> result S) (acc : S) :
  Lodash.reduce (Arr elems) f acc = Lodash.foldM (fun v a => f a v) elems acc.
Proof.
  unfold Lodash.reduce, Lodash.entries.
  apply (foldM_combine (fun v a => f a v)). now rewrite index_keys_length.
Qed.

(** [_.forEach] over an array, for a callback that ignores the index. *)
Lemma forEach_Arr {S : Type} (elems : list value) (f : value -> S -> result S) (s : S) :
  Lodash.forEach (Arr elems) (fun v _ => f v) s = Lodash.foldM f elems s.
Proof.
  unfold Lodash.forEach, Lodash.entries.
  apply (foldM_combine f). now rewrite index_keys_length.
Qed.

(** [_.map] over an array, for a callback that ignores the index. *)
Lemma map_Arr (elems : list value) (f : value -> result value) :
  Lodash.map (Arr elems) (fun v _ => f v) = Lodash.mapM f elems.
Proof.
  unfold Lodash.map, Lodash.entries.
  apply (mapM_combine f). now rewrite index_keys_length.
Qed.

Lemma pluck_Arr (elems : list value) (key : string) :
  Lodash.pluck (Arr elems) key
  = List.map (fun v => if nullish v then Undefined else prop v key) elems.
Proof.
  unfold Lodash.pluck, Lodash.entries.
  assert (Hgen : forall (ks : list value), List.length elems <= List.length ks ->
    List.map (fun e : value * value => if nullish (fst e) then Undefined else prop (fst e) key)
             (combine elems ks)
    = List.map (fun v => if nullish v then Undefined else prop v key) elems).
  { induction elems as [|a l IH]; intros ks Hlen; simpl; [reflexivity|].
    destruct ks as [|k ks]; simpl in *; [lia|]. rewrite IH by lia. reflexivity. }
  apply Hgen. now rewrite index_keys_length.
Qed.

End IterationFacts.

(** ** TraitResolver: [traitsToObject] *)

Section Traits.




End Traits.

(** ** ResourceFlattener: [flattenResources] *)

Section TreeFacts.

Lemma height_lookup (k : string) (v : value) (ps : list (string * value)) :
  lookup k ps = Some v -> height v < height (Obj ps).
Proof.
  intros Hl. apply lookup_In in Hl. simpl.
  apply Nat.lt_succ_r.
  assert (Hall : Forall (fun n => n <= list_max
            (List.map (fun kv : string * value => match kv with (_, x) => height x end) ps))
            (List.map (fun kv : string * value => match kv with (_, x) => height x end) ps))
    by now apply list_max_le.
  rewrite Forall_forall in Hall. apply Hall.
  apply in_map_iff. now exists (k, v).
Qed.

Lemma height_elem (v : value) (elems : list value) :
  In v elems -> height v < height (Arr elems).
Proof.
  intros Hin. simpl. apply Nat.lt_succ_r.
  assert (Hall : Forall (fun n => n <= list_max (List.map height elems)) (List.map height elems))
    by now apply list_max_le.
  rewrite Forall_forall in Hall. apply Hall. now apply in_map.
Qed.

Lemma lookup_indexed_In (k : string) (v : value) (elems : list value) :
  lookup k (indexed elems) = Some v -> In v elems.
Proof.
  intros Hl. apply lookup_In in Hl. unfold indexed in Hl.
  now apply in_combine_r in Hl.
Qed.

(** A name that is not a decimal numeral is not an index of an array or of
    a string. *)
Lemma lookup_indexed_name (k : string) (elems : list value) :
  NilZero.uint_of_string k = None -> lookup k (indexed elems) = None.
Proof.
  intros Hk. destruct (lookup k (indexed elems)) as [v|] eqn:E; [|reflexivity].
  apply lookup_In in E. unfold indexed in E. apply in_combine_l in E.
  apply in_map_iff in E. destruct E as [i [Hi _]].
  unfold string_of_nat in Hi. subst k.
  destruct (NilZero.usu_gen (Nat.to_uint i)) as [Hs|Hs]; congruence.
Qed.

Lemma height_chars (c : value) (s : string) : In c (chars s) -> height c = 0.
Proof.
  unfold chars. intros Hin. apply in_map_iff in Hin.
  destruct Hin as [a [<- _]]. reflexivity.
Qed.

(** Reading a property never yields something deeper than its holder. *)
Lemma height_prop (x : value) (k : string) : height (prop x k) <= height x.
Proof.
  destruct x as [| | b | n | s | elems | ps]; simpl; try lia.
  - destruct (k =? "length"); simpl; [lia|].
    destruct (lookup k (indexed (chars s))) as [v|] eqn:E; simpl; [|lia].
    apply lookup_indexed_In in E. apply height_chars in E. lia.
  - destruct (k =? "length"); simpl; [lia|].
    destruct (lookup k (indexed elems)) as [v|] eqn:E; simpl; [|lia].
    apply lookup_indexed_In, height_elem in E. simpl in E. lia.
  - destruct (lookup k ps) as [v|] eqn:E; simpl; [|lia].
    apply height_lookup in E. simpl in E. lia.
Qed.

Lemma height_entries (collection c : value) :
  In c (List.map fst (Lodash.entries collection)) -> height c <= height collection.
Proof.
  intros Hin. apply in_map_iff in Hin. destruct Hin as [[c' key] [Hc Hin]].
  simpl in Hc. subst c'.
  assert (Hgen : forall length,
    In (c, key)
      (if Lodash.isLength length then
         match length with
         | Number n =>
             List.map (fun i => (prop collection (string_of_nat i), Number (Z.of_nat i)))
                      (seq 0 (Z.to_nat n))
         | _ => []
         end
       else List.map (fun kv => (snd kv, Str (fst kv))) (own_props collection)) ->
    (forall elems, collection <> Arr elems) ->
    height c <= height collection).
  { intros len Hin' Hnot. destruct (Lodash.isLength len).
    - destruct len; try contradiction.
      apply in_map_iff in Hin'. destruct Hin' as [i [[= <- _] _]]. apply height_prop.
    - apply in_map_iff in Hin'. destruct Hin' as [[k v] [[= <- _] Hkv]]. simpl.
      destruct collection as [| | b | n | s | elems | ps]; simpl in Hkv; try contradiction.
      + unfold indexed in Hkv. apply in_combine_r, height_chars in Hkv. lia.
      + exfalso. now apply (Hnot elems).
      + assert (Hmax : Forall (fun n => n <= list_max
            (List.map (fun kv : string * value => match kv with (_, x) => height x end) ps))
            (List.map (fun kv : string * value => match kv with (_, x) => height x end) ps))
          by now apply list_max_le.
        rewrite Forall_forall in Hmax. simpl. apply Nat.le_le_succ_r. apply Hmax.
        apply in_map_iff. now exists (k, v). }
  destruct collection as [| | b | n | s | elems | ps];
    try (unfold Lodash.entries in Hin; cbv zeta in Hin;
         match type of Hin with
         | In _ (if Lodash.isLength ?len then _ else _) =>
             apply (Hgen len Hin); intros elems'; discriminate
         end).
  simpl in Hin. apply in_combine_l, height_elem in Hin. simpl in *. lia.
Qed.

(** Every child lies strictly deeper inside the document than its parent. *)
Lemma children_height (res c : value) : In c (children res) -> height c < height res.
Proof.
  unfold children. intros Hin.
  destruct res as [| | b | n | s | elems | ps]; try (simpl in Hin; contradiction).
  - exfalso. simpl in Hin.
    rewrite lookup_indexed_name in Hin by reflexivity. simpl in Hin. exact Hin.
  - exfalso. simpl in Hin.
    rewrite lookup_indexed_name in Hin by reflexivity. simpl in Hin. exact Hin.
  - apply height_entries in Hin.
    assert (Hp : height (prop (Obj ps) "resources") < height (Obj ps)).
    { unfold prop. destruct (lookup "resources" ps) as [v|] eqn:E.
      - now apply height_lookup in E.
      - simpl. lia. }
    lia.
Qed.

End TreeFacts.

Section Walk.
Context `{Host}.

Lemma foldM_fst {S : Type} (F : value -> S -> result S) (l : list (value * value)) (s : S) :
  Lodash.foldM (fun e => F (fst e)) l s = Lodash.foldM F (List.map fst l) s.
Proof.
  revert s. induction l as [|e l IH]; intros s; simpl; [reflexivity|].
  destruct (F (fst e) s); simpl; [apply IH | reflexivity].
Qed.

Lemma recur_falsy (n : nat) (parents : list value) (res : value) (xs : list value) :
  truthy res = false -> recur (S n) parents res xs = Ok xs.
Proof. intros Hf. simpl. now rewrite Hf. Qed.

Lemma recur_step (n : nat) (parents : list value) (res : value) (xs : list value) :
  truthy res = true ->
  recur (S n) parents res xs
  = (methods <- flattenMethods (prop res "methods") ;;
     Lodash.foldM (recur n (parents ++ [res])) (children res)
                  (xs ++ [record parents res methods])).
Proof.
  intros Ht. simpl. rewrite Ht. simpl. rewrite !get_truthy by exact Ht. simpl.
  destruct (flattenMethods (prop res "methods")) as [ms|e]; simpl; [|reflexivity].
  unfold Lodash.forEach, children. apply foldM_fst.
Qed.

(** The depth bound does not matter once it exceeds the depth of the tree. *)
Lemma recur_stack (n m : nat) (parents : list value) (res : value) (xs : list value) :
  height res < n -> height res < m -> recur n parents res xs = recur m parents res xs.
Proof.
  revert m parents res xs.
  induction n as [|n IH]; intros m parents res xs Hn Hm; [lia|].
  destruct m as [|m]; [lia|].
  destruct (truthy res) eqn:Ht.
  - rewrite !recur_step by exact Ht.
    destruct (flattenMethods (prop res "methods")) as [ms|e]; simpl; [|reflexivity].
    apply foldM_ext. intros c ys Hin. apply children_height in Hin.
    apply IH; lia.
  - now rewrite !recur_falsy.
Qed.

Lemma foldM_acc {A : Type} (G : A -> list value -> result (list value)) (l : list A) :
  (forall a xs, In a l -> G a xs = (ys <- G a [] ;; Ok (xs ++ ys)%list)) ->
  forall xs, Lodash.foldM G l xs
             = (outs <- Lodash.mapM (fun a => G a []) l ;; Ok (xs ++ List.concat outs)%list).
Proof.
  induction l as [|a l IH]; intros HG xs; simpl.
  - now rewrite app_nil_r.
  - rewrite HG by now left.
    destruct (G a []) as [ys|e]; simpl; [|reflexivity].
    rewrite IH by (intros a' xs' Hin; apply HG; now right).
    destruct (Lodash.mapM (fun a0 => G a0 []) l) as [outs|e]; simpl; [|reflexivity].
    now rewrite app_assoc.
Qed.

Lemma mapM_ext {A B : Type} (f g : A -> result B) (l : list A) :
  (forall a, In a l -> f a = g a) -> Lodash.mapM f l = Lodash.mapM g l.
Proof.
  induction l as [|a l IH]; intros Hfg; simpl; [reflexivity|].
  rewrite Hfg by now left. rewrite IH; [reflexivity|].
  intros a' Hin. apply Hfg. now right.
Qed.

(** [recur] appends to [xs] what it would push onto an empty array. *)
Lemma recur_acc (n : nat) (parents : list value) (res : value) (xs : list value) :
  height res < n ->
  recur n parents res xs = (ys <- recur n parents res [] ;; Ok (xs ++ ys)%list).
Proof.
  revert parents res xs.
  induction n as [|n IH]; intros parents res xs Hn; [lia|].
  destruct (truthy res) eqn:Ht.
  - rewrite !recur_step by exact Ht.
    destruct (flattenMethods (prop res "methods")) as [ms|e]; simpl; [|reflexivity].
    assert (HG : forall c ys, In c (children res) ->
      recur n (parents ++ [res]) c ys
      = (zs <- recur n (parents ++ [res]) c [] ;; Ok (ys ++ zs)%list)).
    { intros c ys Hin. apply children_height in Hin. apply IH. lia. }
    rewrite (foldM_acc _ _ HG (xs ++ [record parents res ms])%list).
    rewrite (foldM_acc _ _ HG [record parents res ms]).
    destruct (Lodash.mapM _ (children res)) as [outs|e]; simpl; [|reflexivity].
    now rewrite <- app_assoc.
  - rewrite !recur_falsy by exact Ht. simpl. now rewrite app_nil_r.
Qed.

Lemma subtree_falsy (parents : list value) (res : value) :
  truthy res = false -> subtree parents res = Ok [].
Proof. intros Hf. unfold subtree. now rewrite recur_falsy. Qed.

(** The equation of the walk: a node's record, then what the walk pushes
    for each child in turn. *)
Lemma subtree_node (parents : list value) (res : value) :
  truthy res = true ->
  subtree parents res
  = (methods <- flattenMethods (prop res "methods") ;;
     outs <- Lodash.mapM (subtree (parents ++ [res])) (children res) ;;
     Ok (record parents res methods :: List.concat outs)).
Proof.
  intros Ht. unfold subtree at 1. rewrite recur_step by exact Ht.
  destruct (flattenMethods (prop res "methods")) as [ms|e]; simpl; [|reflexivity].
  rewrite foldM_acc.
  - rewrite (mapM_ext _ (subtree (parents ++ [res]))); [reflexivity|].
    intros c Hin. apply children_height in Hin. unfold subtree.
    apply recur_stack; lia.
  - intros c ys Hin. apply children_height in Hin. apply recur_acc. lia.
Qed.

Lemma mapM_Forall2 {A B : Type} (f : A -> result B) (l : list A) (outs : list B) :
  Lodash.mapM f l = Ok outs <-> Forall2 (fun a b => f a = Ok b) l outs.
Proof.
  revert outs. induction l as [|a l IH]; intros outs; simpl.
  - split; [intros [= <-]; constructor | intros Hf; inversion Hf; reflexivity].
  - split.
    + destruct (f a) as [b|e] eqn:Ea; simpl; [|discriminate].
      destruct (Lodash.mapM f l) as [bs|e] eqn:El; simpl; [|discriminate].
      intros [= <-]. constructor; [exact Ea | now apply IH].
    + intros Hf. inversion Hf as [|a' b l' bs Hab Hrest]; subst.
      rewrite Hab. simpl. apply IH in Hrest. rewrite Hrest. reflexivity.
Qed.

End Walk.

Section RecordFacts.

Lemma prop_record_path (parents : list value) (res methods : value) :
  prop (record parents res methods) "path" = prop res "relativeUri".
Proof. unfold record, prop at 1. now rewrite lookup_set_prop_eq. Qed.

Lemma pluck_parents (parents : list value) (key : string) :
  Lodash.pluck (Arr parents) key = List.map (fun a => prop a key) parents.
Proof.
  rewrite pluck_Arr. apply map_ext. intros a. now destruct a.
Qed.

Lemma prop_record_basePath (parents : list value) (res methods : value) :
  prop (record parents res methods) "basePath"
  = Str (join (List.map (fun a => prop a "relativeUri") parents) "").
Proof.
  unfold record, prop at 1.
  rewrite lookup_set_prop_ne by discriminate.
  now rewrite lookup_set_prop_eq, pluck_parents.
Qed.

Lemma append_assoc (a b c : string) : ((a ++ b) ++ c = a ++ (b ++ c))%string.
Proof. induction a as [|ch a IH]; simpl; [reflexivity | now rewrite IH]. Qed.

Lemma concat_empty_snoc (l : list string) (s : string) :
  String.concat "" (l ++ [s]) = (String.concat "" l ++ s)%string.
Proof.
  induction l as [|a l IH]; simpl; [reflexivity|].
  destruct l as [|b l].
  - simpl. reflexivity.
  - change ((b :: l) ++ [s]) with (b :: (l ++ [s])) in *.
    rewrite IH. simpl.
    now rewrite !append_assoc.
Qed.

(** Joining with no separator: a string at the end is appended. *)
Lemma join_snoc (elems : list value) (s : string) :
  join (elems ++ [Str s]) "" = (join elems "" ++ s)%string.
Proof. unfold join. rewrite map_app. simpl. apply concat_empty_snoc. Qed.

End RecordFacts.

Section FlattenResources.
Context `{Host}.

Lemma Forall2_In_l {A B : Type} (R : A -> B -> Prop) (l : list A) (l' : list B) (a : A) :
  Forall2 R l l' -> In a l ->
  exists l1 l2 b l1' l2', l = l1 ++ a :: l2 /\ l' = l1' ++ b :: l2' /\ R a b.
Proof.
  intros HF Hin. apply in_split in Hin. destruct Hin as [l1 [l2 ->]].
  apply Forall2_app_inv_l in HF. destruct HF as [l1' [r' [_ [Hr ->]]]].
  inversion Hr as [|a' b l2'' l2' Hab _]; subst.
  now exists l1, l2, b, l1', l2'.
Qed.

(** Below every node of the tree, the walk of the whole tree contains the
    walk of that node as a contiguous block. *)
Lemma subtree_block (root : value) (ancestors : list value) (n : value) :
  node_at root ancestors n ->
  forall parents out, subtree parents root = Ok out ->
  exists before block after,
    out = before ++ block ++ after /\ subtree (parents ++ ancestors) n = Ok block.
Proof.
  induction 1 as [root | root c ancestors n Ht Hin Hnode IH]; intros parents out Hout.
  - exists [], out, []. rewrite !app_nil_r. now split.
  - rewrite subtree_node in Hout by exact Ht.
    destruct (flattenMethods (prop root "methods")) as [ms|e]; simpl in Hout; [|discriminate].
    destruct (Lodash.mapM (subtree (parents ++ [root])) (children root)) as [outs|e] eqn:Eo;
      simpl in Hout; [|discriminate].
    injection Hout as <-.
    apply mapM_Forall2 in Eo.
    destruct (Forall2_In_l _ _ _ _ Eo Hin) as [l1 [l2 [o [o1 [o2 [_ [-> Hc]]]]]]].
    destruct (IH _ _ Hc) as [before [block [after [-> Hblock]]]].
    exists (record parents root ms :: List.concat o1 ++ before), block,
           (after ++ List.concat o2).
    split.
    + rewrite concat_app. simpl. now rewrite <- !app_assoc.
    + rewrite <- app_assoc in Hblock. exact Hblock.
Qed.

Lemma mapM_total {A B : Type} (f : A -> result B) (l : list A) :
  (forall a, In a l -> exists b, f a = Ok b) -> exists bs, Lodash.mapM f l = Ok bs.
Proof.
  induction l as [|a l IH]; intros Hf; simpl.
  - now exists [].
  - destruct (Hf a (or_introl eq_refl)) as [b ->].
    destruct IH as [bs ->]; [intros a' Hin; apply Hf; now right|].
    simpl. now exists (b :: bs).
Qed.

(** The walk returns when [flattenMethods] returns at every node. *)
Lemma subtree_total (k : nat) :
  forall root parents, height root < k ->
  (forall ancestors n, node_at root ancestors n -> truthy n = true ->
     exists methods, flattenMethods (prop n "methods") = Ok methods) ->
  exists out, subtree parents root = Ok out.
Proof.
  induction k as [|k IH]; intros root parents Hk Hms; [lia|].
  destruct (truthy root) eqn:Ht.
  - rewrite subtree_node by exact Ht.
    destruct (Hms [] root (node_root root) Ht) as [ms ->]. simpl.
    destruct (mapM_total (subtree (parents ++ [root])) (children root)) as [outs ->].
    + intros c Hin. pose proof (children_height _ _ Hin) as Hh.
      apply IH; [lia|]. intros ancestors n Hnode Hn.
      apply (Hms (root :: ancestors) n); [|exact Hn].
      now apply node_below with c.
    + simpl. eauto.
  - rewrite subtree_falsy by exact Ht. eauto.
Qed.

(** Every record of the walk is the record of a node of the tree. *)
Lemma subtree_records (k : nat) :
  forall root parents out, height root < k -> subtree parents root = Ok out ->
  forall rec, In rec out ->
  exists ancestors n methods,
    node_at root ancestors n /\ truthy n = true
    /\ rec = record (parents ++ ancestors) n methods.
Proof.
  induction k as [|k IH]; intros root parents out Hk Hout rec Hin; [lia|].
  destruct (truthy root) eqn:Ht.
  - rewrite subtree_node in Hout by exact Ht.
    destruct (flattenMethods (prop root "methods")) as [ms|e]; simpl in Hout; [|discriminate].
    destruct (Lodash.mapM (subtree (parents ++ [root])) (children root)) as [outs|e] eqn:Eo;
      simpl in Hout; [|discriminate].
    injection Hout as <-. destruct Hin as [<-|Hin].
    + exists [], root, ms. rewrite app_nil_r.
      split; [constructor | split; [exact Ht | reflexivity]].
    + apply in_concat in Hin. destruct Hin as [o [Ho Hrec]].
      apply mapM_Forall2 in Eo.
      apply Forall2_flip in Eo.
      destruct (Forall2_In_l _ _ _ _ Eo Ho) as [o1 [o2 [c [l1 [l2 [_ [Hcs Hc]]]]]]].
      assert (Hcin : In c (children root)) by (rewrite Hcs; apply in_elt).
      pose proof (children_height _ _ Hcin) as Hh.
      destruct (IH c (parents ++ [root]) o ltac:(lia) Hc rec Hrec)
        as [ancestors [n [methods [Hnode [Hn ->]]]]].
      exists (root :: ancestors), n, methods.
      split; [now apply node_below with c | split; [exact Hn|]].
      now rewrite <- app_assoc.
  - rewrite subtree_falsy in Hout by exact Ht. injection Hout as <-. contradiction.
Qed.

(** C1. [flattenResources] returns a list whenever [flattenMethods] returns
    at every node of the tree.  In the list it returns, (a) every node of
    the input tree has its record, whose [basePath] is the [relativeUri]
    values of the node's ancestors, root first, joined with no separator,
    whose [path] is the node's own [relativeUri], and for which [basePath]
    followed by [path] (a string) is the node's absolute URI; (b) every
    record is the record of a node; (c) the first record is the root's, with
    [basePath] the empty string. *)
Theorem flattenResources_paths (root traits : value) :
  ((forall ancestors n, node_at root ancestors n -> truthy n = true ->
      exists methods, flattenMethods (prop n "methods") = Ok methods) ->
   exists out, flattenResources root traits = Ok out)
  /\ forall out, flattenResources root traits = Ok out ->
      (forall ancestors n, node_at root ancestors n -> truthy n = true ->
         exists rec methods,
           In rec out /\ rec = record ancestors n methods
           /\ prop rec "basePath"
              = Str (join (List.map (fun a => prop a "relativeUri") ancestors) "")
           /\ prop rec "path" = prop n "relativeUri"
           /\ forall base s, prop rec "basePath" = Str base -> prop rec "path" = Str s ->
                             (base ++ s)%string = absoluteUri ancestors n)
      /\ (forall rec, In rec out ->
            exists ancestors n methods,
              node_at root ancestors n /\ truthy n = true
              /\ rec = record ancestors n methods)
      /\ (truthy root = true ->
            exists rec rest, out = rec :: rest /\ prop rec "basePath" = Str "").
Proof.
  split.
  { intros Hms.
    apply (subtree_total (S (height root)) root [] (Nat.lt_succ_diag_r _) Hms). }
  intros out Hout. change (subtree [] root = Ok out) in Hout.
  split; [|split].
  - intros ancestors n Hnode Hn.
    destruct (subtree_block _ _ _ Hnode _ _ Hout) as [before [block [after [-> Hblock]]]].
    simpl in Hblock. rewrite subtree_node in Hblock by exact Hn.
    destruct (flattenMethods (prop n "methods")) as [ms|e]; simpl in Hblock; [|discriminate].
    destruct (Lodash.mapM (subtree (ancestors ++ [n])) (children n)) as [outs|e];
      simpl in Hblock; [|discriminate].
    injection Hblock as <-.
    exists (record ancestors n ms), ms.
    split; [|split; [|split; [|split]]].
    + apply in_or_app. right. apply in_or_app. left. now left.
    + reflexivity.
    + apply prop_record_basePath.
    + apply prop_record_path.
    + intros base s Hbase Hs.
      rewrite prop_record_basePath in Hbase. rewrite prop_record_path in Hs.
      injection Hbase as <-. unfold absoluteUri.
      rewrite map_app. simpl. rewrite Hs. now rewrite join_snoc.
  - intros rec Hin.
    apply (subtree_records (S (height root)) root [] out (Nat.lt_succ_diag_r _) Hout rec Hin).
  - intros Ht. rewrite subtree_node in Hout by exact Ht.
    destruct (flattenMethods (prop root "methods")) as [ms|e]; simpl in Hout; [|discriminate].
    destruct (Lodash.mapM (subtree [root]) (children root)) as [outs|e];
      simpl in Hout; [|discriminate].
    injection Hout as <-.
    exists (record [] root ms), (List.concat outs). split; [reflexivity|].
    now rewrite prop_record_basePath.
Qed.

End FlattenResources.

Section FlattenResourcesOrder.
Context `{Host}.



Lemma subtree_length (k : nat) :
  forall root parents n out, height root < k ->
  tree_nodes root n -> subtree parents root = Ok out -> List.length out = n.
Proof.
  induction k as [|k IH]; intros root parents n out Hk Htree Hout; [lia|].
  inversion Htree as [res sizes Ht Hkids]; subst.
  rewrite subtree_node in Hout by exact Ht.
  destruct (flattenMethods (prop root "methods")) as [ms|e]; simpl in Hout; [|discriminate].
  destruct (Lodash.mapM (subtree (parents ++ [root])) (children root)) as [outs|e] eqn:Eo;
    simpl in Hout; [|discriminate].
  injection Hout as <-. simpl. f_equal.
  apply mapM_Forall2 in Eo.
  assert (Hsmall : forall c, In c (children root) -> height c < k).
  { intros c Hin. apply children_height in Hin. lia. }
  clear Htree Ht Hk. revert outs sizes Eo Hkids.
  induction (children root) as [|c cs IHcs]; intros outs sizes Eo Hkids.
  - inversion Eo; inversion Hkids; reflexivity.
  - inversion Eo as [|c' o cs' outs' Hc Hrest]; subst.
    inversion Hkids as [|c' s cs' sizes' Hs Hsizes]; subst.
    simpl. rewrite length_app.
    rewrite (IH c (parents ++ [root]) s o); auto; [|apply Hsmall; now left].
    f_equal. apply IHcs; auto. intros c' Hin. apply Hsmall. now right.
Qed.

(** C2. For a tree without [null] nodes, the list [flattenResources]
    returns has as many records as the tree has nodes; and the function does
    return such a list whenever [flattenMethods] returns at every node (the
    only way the walk can throw). *)
Theorem flattenResources_length (root traits : value) (n : nat) :
  tree_nodes root n ->
  (forall out, flattenResources root traits = Ok out -> List.length out = n)
  /\ ((forall ancestors m, node_at root ancestors m -> truthy m = true ->
         exists methods, flattenMethods (prop m "methods") = Ok methods) ->
      exists out, flattenResources root traits = Ok out /\ List.length out = n).
Proof.
  intros Htree.
  assert (Hlen : forall out, flattenResources root traits = Ok out -> List.length out = n).
  { intros out Hout.
    apply (subtree_length (S (height root)) root [] n out); auto. }
  split; [exact Hlen|].
  intros Hms.
  destruct (subtree_total (S (height root)) root [] (Nat.lt_succ_diag_r _) Hms) as [out Hout].
  exists out. split; [exact Hout | now apply Hlen].
Qed.



(** C10. [flattenResources] never reads its second parameter: whatever two
    values are passed for [traits], the result is the same; in the store
    model, so are the returned array and the whole store after the call. *)
Theorem flattenResources_ignores_traits (res traits1 traits2 : value) :
  flattenResources res traits1 = flattenResources res traits2
  /\ forall (stack : nat) (node given1 given2 : Heap.hval) (h : Heap.heap),
       Heap.flattenResources stack node given1 h
       = Heap.flattenResources stack node given2 h.
Proof.
  split.
  - unfold flattenResources. reflexivity.
  - intros stack node given1 given2 h. unfold Heap.flattenResources. reflexivity.
Qed.

End FlattenResourcesOrder.

(** ** ExampleSynthesizer: [makeExamplesOf] *)

Section Examples.
Context `{Host}.

Lemma tryPrettyJson_cases (x : value) :
  tryPrettyJson x
  = Ok (match JSON_parse x with
        | Ok j => JSON_stringify j 2
        | Throw _ => x
        end).
Proof. unfold tryPrettyJson, prettyJson. now destruct (JSON_parse x). Qed.

Lemma values_pluck (declared : list (string * value)) (key : string) :
  Lodash.pluck (Arr (Lodash.values (Obj declared))) key
  = List.map (fun ct => prop (snd ct) key) declared.
Proof.
  rewrite pluck_parents. unfold Lodash.values. simpl. now rewrite map_map.
Qed.

(** C5. For a method whose [body] is a mapping from content types to
    schemas, [makeExamplesOf] returns (it never throws) an array with one
    entry per content type, in declared order; the entry is the content
    type's [example] re-serialised by [JSON.stringify] with indent 2 when
    [JSON.parse] accepts it, and that [example] itself, unchanged, when
    [JSON.parse] throws. *)
Theorem makeExamplesOf_body (obj : value) (declared : list (string * value)) :
  get obj "body" = Ok (Obj declared) ->
  exists examples,
    makeExamplesOf obj = Ok (Arr examples)
    /\ Forall2 (fun (ct : string * value) (entry : value) =>
                  let example := prop (snd ct) "example" in
                  (forall j, JSON_parse example = Ok j -> entry = JSON_stringify j 2)
                  /\ (forall e, JSON_parse example = Throw e -> entry = example))
               declared examples.
Proof.
  intros Hbody.
  exists (List.map (fun ct => match JSON_parse (prop (snd ct) "example") with
                              | Ok j => JSON_stringify j 2
                              | Throw _ => prop (snd ct) "example"
                              end) declared).
  split.
  - unfold makeExamplesOf. rewrite Hbody. simpl.
    rewrite map_Arr, values_pluck.
    rewrite (mapM_ext _ (fun x => Ok (match JSON_parse x with
                                      | Ok j => JSON_stringify j 2
                                      | Throw _ => x
                                      end)))
      by (intros x _; apply tryPrettyJson_cases).
    rewrite mapM_pure, map_map. reflexivity.
  - clear Hbody. induction declared as [|ct declared IH]; simpl; constructor.
    + simpl. split.
      * intros j Hj. now rewrite Hj.
      * intros e He. now rewrite He.
    + exact IH.
Qed.

End Examples.

Section Parameters.
Context `{Host}.











End Parameters.

(** ** MethodFlattener: [flattenMethods] *)

Section Methods.
Context `{Host}.

(** The copy [_.extend({}, x)] reads like [x] at every name of the data
    model (anything but [length] and the decimal numerals). *)
Lemma prop_extend_new (x : value) (k : string) :
  NilZero.uint_of_string k = None -> (k =? "length") = false ->
  prop (Obj (Lodash.extend_new x)) k = prop x k.
Proof.
  intros Hk Hlen. destruct x as [| | b | n | s | elems | ps]; simpl; try reflexivity.
  - now rewrite Hlen.
  - now rewrite Hlen.
Qed.

Lemma makeExamplesOf_nothing (obj : value) :
  nullish obj = false ->
  truthy (prop obj "body") = false ->
  Lodash.entries (prop obj "params") = [] ->
  makeExamplesOf obj = Ok Undefined.
Proof.
  intros Hobj Hbody Hparams. unfold makeExamplesOf, get.
  rewrite Hobj. cbn [bind]. rewrite Hbody.
  unfold Lodash.reduce. rewrite Hparams. reflexivity.
Qed.

(** C7. For a method that declares no body (the field is absent or
    [null]) and no parameters (the field is absent or has no elements),
    [makeExamplesOf] returns [undefined], and the record [flattenMethods]
    builds for the method reads [undefined] at [requestExamples]: not an
    empty array. *)
Theorem flattenMethod_no_examples (objForMethod : value) :
  truthy (prop objForMethod "body") = false ->
  Lodash.entries (prop objForMethod "params") = [] ->
  makeExamplesOf (Obj (Lodash.extend_new objForMethod)) = Ok Undefined
  /\ forall rec, flattenMethod objForMethod = Ok rec ->
       prop rec "requestExamples" = Undefined
       /\ prop rec "requestExamples" <> Arr [].
Proof.
  intros Hbody Hparams.
  assert (Hnone : makeExamplesOf (Obj (Lodash.extend_new objForMethod)) = Ok Undefined).
  { apply makeExamplesOf_nothing; [reflexivity | |];
      rewrite prop_extend_new by reflexivity; assumption. }
  split; [exact Hnone|].
  intros rec Hrec. unfold flattenMethod in Hrec. rewrite Hnone in Hrec.
  destruct (get objForMethod "method") as [methodName|e]; cbn [bind] in Hrec; [|discriminate].
  destruct (get objForMethod "responses") as [declared|e]; cbn [bind] in Hrec; [|discriminate].
  destruct (Lodash.map declared (flattenResponse methodName)) as [responses|e];
    cbn [bind] in Hrec; [|discriminate].
  injection Hrec as <-.
  assert (Hread : prop (Obj (set_prop (set_prop (Lodash.extend_new objForMethod)
                                         "requestExamples" Undefined)
                               "responses" (Arr responses))) "requestExamples" = Undefined).
  { unfold prop. rewrite lookup_set_prop_ne by discriminate.
    now rewrite lookup_set_prop_eq. }
  rewrite Hread. split; [reflexivity | discriminate].
Qed.

Lemma foldM_flat_map {A B S : Type} (g : B -> S -> result S) (h : A -> list B)
  (l : list A) (s : S) :
  Lodash.foldM (fun a => Lodash.foldM g (h a)) l s = Lodash.foldM g (flat_map h l) s.
Proof.
  revert s. induction l as [|a l IH]; intros s; simpl; [reflexivity|].
  rewrite foldM_app. destruct (Lodash.foldM g (h a) s); simpl; [apply IH | reflexivity].
Qed.

(** Two nested [_.forEach] loops visit the elements of the elements. *)
Lemma forEach_nested {S : Type} (F : value -> S -> result S) (collection : value) (s : S) :
  Lodash.forEach collection
    (fun x _ s1 => Lodash.forEach x (fun y _ s2 => F y s2) s1) s
  = Lodash.foldM F (visited collection) s.
Proof.
  unfold visited, Lodash.forEach.
  generalize (Lodash.entries collection) as l. intros l. revert s.
  induction l as [|e l IH]; intros s; simpl; [reflexivity|].
  rewrite foldM_app, <- (foldM_fst F).
  destruct (Lodash.foldM (fun e0 => F (fst e0)) (Lodash.entries (fst e)) s);
    simpl; [apply IH | reflexivity].
Qed.

Lemma flattenResponse_fold (methodName objForCode code : value) :
  flattenResponse methodName objForCode code
  = (obj <- Lodash.foldM (assign_summary methodName code) (visited objForCode) [] ;;
     Ok (Obj obj)).
Proof.
  unfold flattenResponse.
  now rewrite <- (forEach_nested (assign_summary methodName code)).
Qed.

(** After any number of visits the summary is empty or holds the three
    fields, the example being the one assigned last. *)
Lemma assign_summary_last (methodName code : value) (schemas : list value) :
  forall obj obj',
    (obj = [] \/ exists example, Obj obj = summary example code methodName) ->
    Lodash.foldM (assign_summary methodName code) schemas obj = Ok obj' ->
    (schemas = [] /\ obj' = obj)
    \/ exists earlier last,
         schemas = earlier ++ [last]
         /\ Obj obj' = summary (prop last "example") code methodName.
Proof.
  induction schemas as [|schema schemas IH]; intros obj obj' Hinv Hfold; simpl in Hfold.
  - injection Hfold as <-. now left.
  - right. unfold assign_summary at 1 in Hfold. unfold get in Hfold.
    destruct (nullish schema); cbn [bind] in Hfold; [discriminate|].
    assert (Hstep : set_prop (set_prop (set_prop obj "example" (prop schema "example"))
                                "code" code) "method" methodName
                    = [("example", prop schema "example"); ("code", code);
                       ("method", methodName)]).
    { destruct Hinv as [-> | [example [= ->]]]; reflexivity. }
    rewrite Hstep in Hfold.
    destruct (IH _ _ (or_intror (ex_intro _ _ eq_refl)) Hfold)
      as [[-> ->] | [earlier [last [-> Hlast]]]].
    + exists [], schema. split; reflexivity.
    + exists (schema :: earlier), last. split; [reflexivity | exact Hlast].
Qed.


End Methods.

(** ** The store: what [flattenHierarchy] leaves as it is

    Over the store model.  Every write of [main.js] is to a cell the call
    has allocated, the writes of [_.set] apart, which go where the path
    leads: into the composite, and into whatever the composite refers to.
    When every [example] of the document is a literal, the composite refers
    to nothing of the document, and the document is left as it is. *)

Module StoreFacts.
Import Heap.

(** ** Lists and stores *)

Lemma firstn_update_above {A : Type} (n i : nat) (x : A) (l : list A) :
  n <= i -> firstn n (update i x l) = firstn n l.
Proof.
  revert n i. induction l as [|a l IH]; intros n i Hle; [destruct i; reflexivity|].
  destruct i as [|i].
  - assert (n = 0) by lia. subst n. reflexivity.
  - destruct n as [|n]; [reflexivity|]. simpl. f_equal. apply IH. lia.
Qed.

Lemma firstn_alloc {A : Type} (n : nat) (l : list A) (x : A) :
  n <= List.length l -> firstn n (l ++ [x]) = firstn n l.
Proof.
  intros Hle. rewrite firstn_app. replace (n - List.length l) with 0 by lia.
  simpl. apply app_nil_r.
Qed.

Lemma prefix_length {A : Type} (h0 h : list A) :
  firstn (List.length h0) h = h0 -> List.length h0 <= List.length h.
Proof.
  intros Hp. apply (f_equal (@List.length A)) in Hp. rewrite length_firstn in Hp. lia.
Qed.

Lemma prefix_nth {A : Type} (h0 h : list A) (l : nat) :
  firstn (List.length h0) h = h0 -> l < List.length h0 -> nth_error h l = nth_error h0 l.
Proof.
  intros Hp Hl. transitivity (nth_error (firstn (List.length h0) h) l); [|now rewrite Hp].
  rewrite nth_error_firstn. apply Nat.ltb_lt in Hl. now rewrite Hl.
Qed.

Lemma prefix_trans {A : Type} (h0 h1 h : list A) :
  firstn (List.length h0) h1 = h0 -> firstn (List.length h1) h = h1 ->
  firstn (List.length h0) h = h0.
Proof.
  intros H01 H1. pose proof (prefix_length _ _ H01) as Hle.
  transitivity (firstn (List.length h0) (firstn (List.length h1) h)); [|now rewrite H1].
  rewrite firstn_firstn. now rewrite Nat.min_l.
Qed.

Lemma nth_update {A : Type} (i j : nat) (x c : A) (l : list A) :
  nth_error (update i x l) j = Some c -> (j = i /\ c = x) \/ nth_error l j = Some c.
Proof.
  revert i j. induction l as [|a l IH]; intros i j Hn.
  - destruct i; simpl in Hn; destruct j; discriminate.
  - destruct i as [|i]; destruct j as [|j]; simpl in Hn.
    + left. split; congruence.
    + now right.
    + now right.
    + destruct (IH _ _ Hn) as [[-> ->]|Hr]; [now left | now right].
Qed.

Lemma nth_alloc {A : Type} (j : nat) (x c : A) (l : list A) :
  nth_error (l ++ [x]) j = Some c -> nth_error l j = Some c \/ (j = List.length l /\ c = x).
Proof.
  intros Hn. destruct (Nat.lt_ge_cases j (List.length l)) as [Hlt|Hge].
  - left. now rewrite nth_error_app1 in Hn.
  - right. rewrite nth_error_app2 in Hn by exact Hge.
    destruct (j - List.length l) as [|d] eqn:E; simpl in Hn.
    + split; [lia | congruence].
    + destruct d; discriminate.
Qed.

Lemma lookup_found {V : Type} (k : string) (v : V) (ps : list (string * V)) :
  lookup k ps = Some v -> In v (List.map snd ps).
Proof.
  induction ps as [|[k' v'] ps IH]; simpl; [discriminate|].
  destruct (k' =? k)%string; [intros [= ->]; now left | intros Hl; right; now apply IH].
Qed.

Lemma snd_indexed {V : Type} (v : V) (elems : list V) :
  In v (List.map snd (indexed elems)) -> In v elems.
Proof.
  intros Hin. apply in_map_iff in Hin. destruct Hin as [[k v'] [<- Hin]].
  unfold indexed in Hin. now apply in_combine_r in Hin.
Qed.

Lemma primitive_below (n : nat) (v : hval) : primitive v = true -> below n v = true.
Proof. destruct v; simpl; congruence. Qed.

Lemma primitive_above (n : nat) (v : hval) : primitive v = true -> above n v = true.
Proof. destruct v; simpl; congruence. Qed.

Lemma above_le (n m : nat) (v : hval) : n <= m -> above m v = true -> above n v = true.
Proof.
  destruct v; simpl; try reflexivity. intros Hle Hm.
  apply Nat.leb_le in Hm. apply Nat.leb_le. lia.
Qed.

Lemma hchars_primitive (s : string) (v : hval) : In v (hchars s) -> primitive v = true.
Proof.
  unfold hchars. intros Hin. apply in_map_iff in Hin. now destruct Hin as [c [<- _]].
Qed.

(** What a cell holds at a name is one of its values, or a primitive. *)
Lemma read_values (c : cell) (k : string) :
  primitive (read c k) = true \/ In (read c k) (cell_values c).
Proof.
  destruct c as [props|elems]; simpl.
  - destruct (lookup k props) as [v|] eqn:E; simpl; [|now left].
    right. now apply lookup_found in E.
  - destruct (k =? "length")%string; [now left|].
    destruct (lookup k (indexed elems)) as [v|] eqn:E; simpl; [|now left].
    right. now apply lookup_found, snd_indexed in E.
Qed.

Lemma read_forallb (P : hval -> bool) (c : cell) (k : string) :
  (forall v, primitive v = true -> P v = true) ->
  forallb P (cell_values c) = true -> P (read c k) = true.
Proof.
  intros Hprim Hall. destruct (read_values c k) as [Hp|Hin]; [now apply Hprim|].
  rewrite forallb_forall in Hall. now apply Hall.
Qed.

Lemma forallb_replace {V : Type} (P : V -> bool) (k : string) (v : V) (ps : list (string * V)) :
  forallb P (List.map snd ps) = true -> P v = true ->
  forallb P (List.map snd (replace k v ps)) = true.
Proof.
  intros Hall Hv. induction ps as [|[k' v'] ps IH]; simpl in *; [reflexivity|].
  apply andb_true_iff in Hall. destruct Hall as [H1 H2].
  destruct (k' =? k)%string; simpl; apply andb_true_iff; split; auto.
Qed.

Lemma forallb_insert_index {V : Type} (P : V -> bool) (n : N) (k : string) (v : V)
  (ps : list (string * V)) :
  forallb P (List.map snd ps) = true -> P v = true ->
  forallb P (List.map snd (insert_index n k v ps)) = true.
Proof.
  intros Hall Hv. induction ps as [|[k' v'] ps IH]; simpl in *; [now rewrite Hv|].
  apply andb_true_iff in Hall. destruct Hall as [H1 H2].
  destruct (index_of_key k') as [n'|]; [destruct (n' <? n)%N|]; simpl;
    rewrite ?Hv, ?H1, ?H2; simpl; auto.
Qed.

Lemma forallb_set_prop {V : Type} (P : V -> bool) (k : string) (v : V) (ps : list (string * V)) :
  forallb P (List.map snd ps) = true -> P v = true ->
  forallb P (List.map snd (set_prop ps k v)) = true.
Proof.
  intros Hall Hv. unfold set_prop. destruct (lookup k ps).
  - now apply forallb_replace.
  - destruct (index_of_key k).
    + now apply forallb_insert_index.
    + rewrite map_app, forallb_app, Hall. simpl. now rewrite Hv.
Qed.

Lemma forallb_update {V : Type} (P : V -> bool) (n : nat) (v : V) (l : list V) :
  forallb P l = true -> P v = true -> forallb P (update n v l) = true.
Proof.
  revert n. induction l as [|a l IH]; intros n Hall Hv; [destruct n; reflexivity|].
  simpl in Hall. apply andb_true_iff in Hall. destruct Hall as [H1 H2].
  destruct n; simpl; apply andb_true_iff; split; auto.
Qed.

Lemma forallb_write_index (P : hval -> bool) (n : nat) (v : hval) (elems : list hval) :
  P HUndefined = true -> forallb P elems = true -> P v = true ->
  forallb P (write_index elems n v) = true.
Proof.
  intros Hu Hall Hv. unfold write_index. destruct (n <? List.length elems)%nat.
  - now apply forallb_update.
  - rewrite !forallb_app, Hall. simpl. rewrite Hv, andb_true_r.
    induction (n - List.length elems) as [|d IH]; simpl; [reflexivity|]. now rewrite Hu.
Qed.

(** ** Runs *)

Lemma bind_inv {A B : Type} (m : M A) (k : A -> M B) (h : heap) (b : B) (h' : heap) :
  mbind m k h = Ok (b, h') -> exists a h1, m h = Ok (a, h1) /\ k a h1 = Ok (b, h').
Proof.
  unfold mbind. destruct (m h) as [[a h1]|e]; [|discriminate]. intros Hk. now exists a, h1.
Qed.

Lemma ret_inv {A : Type} (a b : A) (h h' : heap) : ret a h = Ok (b, h') -> b = a /\ h' = h.
Proof. unfold ret. intros [= -> ->]. now split. Qed.

Lemma load_inv (l : loc) (h : heap) (c : cell) (h' : heap) :
  load l h = Ok (c, h') -> nth_error h l = Some c /\ h' = h.
Proof.
  unfold load. destruct (nth_error h l); [|discriminate]. intros [= -> ->]. now split.
Qed.

(** *** Computations that only read *)

Lemma reads_ret {A : Type} (a : A) : reads (ret a).
Proof. intros h b h' Hr. now apply ret_inv in Hr. Qed.

Lemma reads_throw {A : Type} (e : error) : reads (@throw A e).
Proof. intros h b h' Hr. discriminate. Qed.

Lemma reads_bind {A B : Type} (m : M A) (k : A -> M B) :
  reads m -> (forall a, reads (k a)) -> reads (mbind m k).
Proof.
  intros Hm Hk h b h' Hr. apply bind_inv in Hr. destruct Hr as [a [h1 [H1 H2]]].
  apply Hm in H1. subst h1. now apply Hk in H2.
Qed.

Lemma reads_load (l : loc) : reads (load l).
Proof. intros h c h' Hr. now apply load_inv in Hr. Qed.

Lemma reads_view (v : hval) : reads (view v).
Proof. intros h c h' Hr. unfold view in Hr. congruence. Qed.

Ltac reads_step :=
  first [ apply reads_ret | apply reads_throw | apply reads_load | apply reads_view
        | apply reads_bind; [|intros ?] ].

Lemma reads_get (x : hval) (k : string) : reads (get x k).
Proof. destruct x; simpl; repeat reads_step. Qed.

Lemma reads_has (k : string) (x : hval) : reads (has k x).
Proof. destruct x; simpl; repeat reads_step. Qed.

Lemma reads_own_props (x : hval) : reads (own_props x).
Proof. destruct x; simpl; repeat reads_step. Qed.

Lemma reads_Object_keys (x : hval) : reads (Object_keys x).
Proof.
  unfold Object_keys. destruct (nullish x); [apply reads_throw|].
  apply reads_bind; [apply reads_own_props | intros; apply reads_ret].
Qed.

Lemma reads_ToString (x : hval) : reads (ToString x).
Proof. unfold ToString. repeat reads_step. Qed.

Lemma reads_iteration_keys (c : hval) : reads (iteration_keys c).
Proof.
  unfold iteration_keys. apply reads_bind.
  - destruct (truthy c); [apply reads_get | apply reads_ret].
  - intros len. destruct (Lodash.isLength (shallow len)).
    + destruct len; repeat reads_step.
    + apply reads_bind; [apply reads_own_props | intros; apply reads_ret].
Qed.

Lemma reads_element (c key : hval) : reads (element c key).
Proof. unfold element. apply reads_bind; [apply reads_ToString | intros; apply reads_get]. Qed.

Lemma reads_join (a : hval) (sep : string) : reads (join a sep).
Proof.
  unfold join. apply reads_bind; [apply reads_view|]. intros tree.
  destruct tree; repeat reads_step.
Qed.

(** *** What a read returns *)

Lemma get_inv (x : hval) (k : string) (h : heap) (a : hval) (h' : heap) :
  get x k h = Ok (a, h') ->
  h' = h /\ match x with
            | HRef l => exists c, nth_error h l = Some c /\ a = read c k
            | _ => primitive a = true
            end.
Proof.
  intros Hg. split; [now apply reads_get in Hg|].
  destruct x; simpl in Hg; try discriminate.
  - apply ret_inv in Hg. now destruct Hg as [-> _].
  - apply ret_inv in Hg. now destruct Hg as [-> _].
  - apply ret_inv in Hg. destruct Hg as [-> _].
    destruct (k =? "length")%string; [reflexivity|].
    destruct (lookup k (indexed (hchars s))) as [v|] eqn:E; [|reflexivity].
    simpl. apply lookup_found, snd_indexed in E. now apply hchars_primitive in E.
  - apply bind_inv in Hg. destruct Hg as [c [h1 [Hl Hr]]].
    apply load_inv in Hl. destruct Hl as [Hn ->]. apply ret_inv in Hr.
    destruct Hr as [-> _]. now exists c.
Qed.

Lemma own_props_inv (x : hval) (h : heap) (props : list (string * hval)) (h' : heap) :
  own_props x h = Ok (props, h') ->
  h' = h /\ match x with
            | HRef l => exists c, nth_error h l = Some c
                                  /\ forall v, In v (List.map snd props) -> In v (cell_values c)
            | _ => forall v, In v (List.map snd props) -> primitive v = true
            end.
Proof.
  intros Hg. split; [now apply reads_own_props in Hg|].
  destruct x; simpl in Hg; try (apply ret_inv in Hg; destruct Hg as [-> _]);
    try (intros v []).
  - intros v Hin. apply snd_indexed in Hin. now apply hchars_primitive in Hin.
  - apply bind_inv in Hg. destruct Hg as [c [h1 [Hl Hr]]].
    apply load_inv in Hl. destruct Hl as [Hn ->]. apply ret_inv in Hr.
    destruct Hr as [-> _]. exists c. split; [exact Hn|].
    destruct c; simpl; [auto|]. intros v. apply snd_indexed.
Qed.

(** ** Keeping the cells of the document *)

Section Keeps.
Context `{Host}.
Variable h0 : heap.
Hypothesis Hclosed : closed h0 = true.
Hypothesis Hliteral : literal_examples h0 = true.

#[local] Abbreviation n0 := (List.length h0).
#[local] Abbreviation any := (fun _ => True).

Lemma keeps_ret {A : Type} (a : A) (Q : A -> Prop) : Q a -> keeps h0 (ret a) Q.
Proof. intros HQ h b h' Hp Hr. apply ret_inv in Hr. destruct Hr as [-> ->]. now split. Qed.

Lemma keeps_throw {A : Type} (e : error) (Q : A -> Prop) : keeps h0 (throw e) Q.
Proof. intros h b h' Hp Hr. discriminate. Qed.

Lemma keeps_bind {A B : Type} (m : M A) (k : A -> M B) (P : A -> Prop) (Q : B -> Prop) :
  keeps h0 m P -> (forall a, P a -> keeps h0 (k a) Q) -> keeps h0 (mbind m k) Q.
Proof.
  intros Hm Hk h b h' Hp Hr. apply bind_inv in Hr. destruct Hr as [a [h1 [H1 H2]]].
  destruct (Hm _ _ _ Hp H1) as [Hp1 HP]. exact (Hk a HP _ _ _ Hp1 H2).
Qed.

Lemma keeps_seq {A B : Type} (m : M A) (k : A -> M B) (Q : B -> Prop) :
  keeps h0 m any -> (forall a, keeps h0 (k a) Q) -> keeps h0 (mbind m k) Q.
Proof. intros Hm Hk. apply (keeps_bind m k any); auto. Qed.

Lemma keeps_weaken {A : Type} (m : M A) (P Q : A -> Prop) :
  keeps h0 m P -> (forall a, P a -> Q a) -> keeps h0 m Q.
Proof. intros Hm HPQ h a h' Hp Hr. destruct (Hm _ _ _ Hp Hr) as [Hp' HP]. auto. Qed.

Lemma keeps_reads {A : Type} (m : M A) : reads m -> keeps h0 m any.
Proof. intros Hm h a h' Hp Hr. apply Hm in Hr. now subst h'. Qed.

Lemma keeps_alloc (c : cell) : keeps h0 (alloc c) (fun a => above n0 a = true).
Proof.
  intros h a h' Hp Hr. unfold alloc in Hr.
  assert (a = HRef (List.length h)) as -> by congruence.
  assert (h' = h ++ [c]) as -> by congruence.
  pose proof (prefix_length _ _ Hp) as Hle. split.
  - now rewrite firstn_alloc.
  - simpl. now apply Nat.leb_le.
Qed.

Lemma keeps_store (l : loc) (c : cell) : n0 <= l -> keeps h0 (store l c) any.
Proof.
  intros Hle h a h' Hp Hr. unfold store in Hr.
  assert (h' = update l c h) as -> by congruence.
  split; [|exact I]. now rewrite firstn_update_above.
Qed.

Lemma keeps_assign (x : hval) (k : string) (v : hval) :
  above n0 x = true -> keeps h0 (assign x k v) any.
Proof.
  intros Hx. destruct x; simpl; try apply keeps_throw; try now apply keeps_ret.
  apply Nat.leb_le in Hx. apply keeps_seq; [apply keeps_reads, reads_load|].
  intros [props|elems]; [now apply keeps_store|].
  destruct (index_of_key k); [now apply keeps_store | now apply keeps_ret].
Qed.

Lemma keeps_delete (x : hval) (k : string) : above n0 x = true -> keeps h0 (delete x k) any.
Proof.
  intros Hx. destruct x; simpl; try now apply keeps_ret.
  apply Nat.leb_le in Hx. apply keeps_seq; [apply keeps_reads, reads_load|].
  intros [props|elems]; [now apply keeps_store | now apply keeps_ret].
Qed.

Lemma keeps_push (xs v : hval) : above n0 xs = true -> keeps h0 (push xs v) any.
Proof.
  intros Hx. destruct xs; simpl; try apply keeps_throw.
  apply Nat.leb_le in Hx. apply keeps_seq; [apply keeps_reads, reads_load|].
  intros [props|elems]; [apply keeps_throw | now apply keeps_store].
Qed.

(** A cell of the document holds values of the document, and a literal at
    [example]. *)
Lemma document_cell (h : heap) (l : loc) (c : cell) :
  firstn n0 h = h0 -> l < n0 -> nth_error h l = Some c ->
  forallb (below n0) (cell_values c) = true /\ primitive (read c "example") = true.
Proof.
  intros Hp Hl Hn. rewrite (prefix_nth _ _ _ Hp Hl) in Hn. apply nth_error_In in Hn.
  unfold closed in Hclosed. unfold literal_examples in Hliteral.
  rewrite forallb_forall in Hclosed, Hliteral. split; auto.
Qed.

Lemma keeps_get_below (x : hval) (k : string) :
  below n0 x = true -> keeps h0 (get x k) (fun a => below n0 a = true).
Proof.
  intros Hx h a h' Hp Hr. apply get_inv in Hr. destruct Hr as [-> Hr]. split; [exact Hp|].
  destruct x; try now apply primitive_below.
  destruct Hr as [c [Hn ->]]. apply Nat.ltb_lt in Hx.
  destruct (document_cell _ _ _ Hp Hx Hn) as [Hall _].
  apply read_forallb; [apply primitive_below | exact Hall].
Qed.

Lemma keeps_get_example (x : hval) :
  below n0 x = true -> keeps h0 (get x "example") (fun a => primitive a = true).
Proof.
  intros Hx h a h' Hp Hr. apply get_inv in Hr. destruct Hr as [-> Hr]. split; [exact Hp|].
  destruct x; try exact Hr.
  destruct Hr as [c [Hn ->]]. apply Nat.ltb_lt in Hx.
  now destruct (document_cell _ _ _ Hp Hx Hn) as [_ Hprim].
Qed.

Lemma keeps_own_props_below (x : hval) :
  below n0 x = true ->
  keeps h0 (own_props x) (fun props => forallb (below n0) (List.map snd props) = true).
Proof.
  intros Hx h a h' Hp Hr. apply own_props_inv in Hr. destruct Hr as [-> Hr].
  split; [exact Hp|]. apply forallb_forall. intros v Hin.
  destruct x; try (apply primitive_below; now apply Hr).
  destruct Hr as [c [Hn Hsub]]. apply Nat.ltb_lt in Hx.
  destruct (document_cell _ _ _ Hp Hx Hn) as [Hall _].
  rewrite forallb_forall in Hall. now apply Hall, Hsub.
Qed.

Lemma keeps_extend_new (x : hval) : keeps h0 (extend_new x) (fun a => above n0 a = true).
Proof.
  unfold extend_new. apply keeps_seq; [apply keeps_reads, reads_own_props|].
  intros props. apply keeps_alloc.
Qed.

Lemma keeps_values (x : hval) : keeps h0 (values x) (fun a => above n0 a = true).
Proof.
  unfold values. apply keeps_seq; [apply keeps_reads, reads_own_props|].
  intros props. apply keeps_alloc.
Qed.

Lemma keeps_concat1 (a x : hval) : keeps h0 (concat1 a x) (fun a => above n0 a = true).
Proof.
  destruct a; simpl; try apply keeps_throw.
  apply keeps_seq; [apply keeps_reads, reads_load|].
  intros [props|elems]; [apply keeps_throw | apply keeps_alloc].
Qed.

(** *** Iteration *)

Lemma keeps_iterM {A : Type} (f : A -> M unit) (l : list A) :
  (forall a, keeps h0 (f a) any) -> keeps h0 (iterM f l) any.
Proof.
  intros Hf. induction l as [|a l IH]; simpl; [now apply keeps_ret|].
  apply keeps_seq; [apply Hf | intros _; exact IH].
Qed.

Lemma keeps_mapM {A B : Type} (f : A -> M B) (l : list A) :
  (forall a, keeps h0 (f a) any) -> keeps h0 (mapM f l) any.
Proof.
  intros Hf. induction l as [|a l IH]; simpl; [now apply keeps_ret|].
  apply keeps_seq; [apply Hf | intros b].
  apply keeps_seq; [exact IH | intros bs; now apply keeps_ret].
Qed.

Lemma keeps_foldM {A S : Type} (f : S -> A -> M S) (l : list A) (s : S) (Inv : S -> Prop) :
  (forall s a, Inv s -> keeps h0 (f s a) Inv) -> Inv s -> keeps h0 (foldM f l s) Inv.
Proof.
  intros Hf. revert s. induction l as [|a l IH]; intros s Hs; simpl; [now apply keeps_ret|].
  apply (keeps_bind _ _ Inv); [now apply Hf | exact IH].
Qed.

(** The elements of a collection of the document are values of the
    document. *)
Lemma keeps_element_below (c key : hval) :
  below n0 c = true -> keeps h0 (element c key) (fun v => below n0 v = true).
Proof.
  intros Hc. unfold element. apply keeps_seq; [apply keeps_reads, reads_ToString|].
  intros k. now apply keeps_get_below.
Qed.

Lemma keeps_forEach (c : hval) (f : hval -> hval -> M unit) :
  below n0 c = true ->
  (forall v k, below n0 v = true -> keeps h0 (f v k) any) ->
  keeps h0 (forEach c f) any.
Proof.
  intros Hc Hf. unfold forEach. apply keeps_seq; [apply keeps_reads, reads_iteration_keys|].
  intros keys. apply keeps_iterM. intros key.
  apply (keeps_bind _ _ (fun v => below n0 v = true)); [now apply keeps_element_below|].
  intros v Hv. now apply Hf.
Qed.

Lemma keeps_map (c : hval) (f : hval -> hval -> M hval) :
  below n0 c = true ->
  (forall v k, below n0 v = true -> keeps h0 (f v k) any) ->
  keeps h0 (map c f) (fun a => above n0 a = true).
Proof.
  intros Hc Hf. unfold map. apply keeps_seq; [apply keeps_reads, reads_iteration_keys|].
  intros keys. apply keeps_seq; [|intros results; apply keeps_alloc].
  apply keeps_mapM. intros key.
  apply (keeps_bind _ _ (fun v => below n0 v = true)); [now apply keeps_element_below|].
  intros v Hv. now apply Hf.
Qed.

(** The same for a collection built by the call, when the iteratee keeps
    the document whatever it is given. *)
Lemma keeps_map_any (c : hval) (f : hval -> hval -> M hval) :
  (forall v k, keeps h0 (f v k) any) -> keeps h0 (map c f) (fun a => above n0 a = true).
Proof.
  intros Hf. unfold map. apply keeps_seq; [apply keeps_reads, reads_iteration_keys|].
  intros keys. apply keeps_seq; [|intros results; apply keeps_alloc].
  apply keeps_mapM. intros key.
  apply keeps_seq; [apply keeps_reads, reads_element | intros v; apply Hf].
Qed.

Lemma keeps_reduce (c : hval) (f : hval -> hval -> M hval) (acc : hval) (Inv : hval -> Prop) :
  below n0 c = true ->
  (forall acc v, Inv acc -> below n0 v = true -> keeps h0 (f acc v) Inv) ->
  Inv acc -> keeps h0 (reduce c f acc) Inv.
Proof.
  intros Hc Hf Hacc. unfold reduce.
  apply keeps_seq; [apply keeps_reads, reads_iteration_keys|].
  intros keys. apply keeps_foldM; [|exact Hacc]. intros s key Hs.
  apply (keeps_bind _ _ (fun v => below n0 v = true)); [now apply keeps_element_below|].
  intros v Hv. now apply Hf.
Qed.

Lemma keeps_pluck (c : hval) (key : string) :
  keeps h0 (pluck c key) (fun a => above n0 a = true).
Proof.
  unfold pluck. apply keeps_map_any. intros v _.
  destruct (nullish v); [now apply keeps_ret | apply keeps_reads, reads_get].
Qed.

Lemma keeps_tryPrettyJson (x : hval) : keeps h0 (tryPrettyJson x) any.
Proof.
  unfold tryPrettyJson. apply keeps_seq; [apply keeps_reads, reads_view|].
  intros tree. destruct (JSON_parse tree); now apply keeps_ret.
Qed.

(** *** The composite object of [makeExamplesOf]

    [h1] is the store when the composite is allocated; what [_.set] creates
    and writes lies after it. *)

Section Seals.
Variable h1 : heap.
Hypothesis Hextends : firstn n0 h1 = h0.

#[local] Abbreviation n1 := (List.length h1).

Lemma seals_ret {A : Type} (a : A) (Q : A -> Prop) : Q a -> seals h1 (ret a) Q.
Proof.
  intros HQ h b h' Hp Hs Hr. apply ret_inv in Hr. destruct Hr as [-> ->]. auto.
Qed.

Lemma seals_throw {A : Type} (e : error) (Q : A -> Prop) : seals h1 (throw e) Q.
Proof. intros h b h' Hp Hs Hr. discriminate. Qed.

Lemma seals_bind {A B : Type} (m : M A) (k : A -> M B) (P : A -> Prop) (Q : B -> Prop) :
  seals h1 m P -> (forall a, P a -> seals h1 (k a) Q) -> seals h1 (mbind m k) Q.
Proof.
  intros Hm Hk h b h' Hp Hs Hr. apply bind_inv in Hr. destruct Hr as [a [h2 [H1 H2]]].
  destruct (Hm _ _ _ Hp Hs H1) as [Hp1 [Hs1 HP]]. exact (Hk a HP _ _ _ Hp1 Hs1 H2).
Qed.

Lemma seals_seq {A B : Type} (m : M A) (k : A -> M B) (Q : B -> Prop) :
  seals h1 m any -> (forall a, seals h1 (k a) Q) -> seals h1 (mbind m k) Q.
Proof. intros Hm Hk. apply (seals_bind m k any); auto. Qed.

(** A computation that only reads seals what it keeps. *)
Lemma seals_reads {A : Type} (m : M A) (Q : A -> Prop) :
  reads m -> keeps h0 m Q -> seals h1 m Q.
Proof.
  intros Hm Hk h a h' Hp Hs Hr. pose proof (Hm _ _ _ Hr) as ->.
  destruct (Hk _ _ _ (prefix_trans _ _ _ Hextends Hp) Hr) as [_ HQ]. auto.
Qed.

Lemma seals_get_above (x : hval) (k : string) :
  above n1 x = true -> seals h1 (get x k) (fun a => above n1 a = true).
Proof.
  intros Hx h a h' Hp Hs Hr. apply get_inv in Hr. destruct Hr as [-> Hr].
  split; [exact Hp|]. split; [exact Hs|].
  destruct x; try now apply primitive_above.
  destruct Hr as [c [Hn ->]]. apply Nat.leb_le in Hx.
  apply read_forallb; [apply primitive_above | exact (Hs _ _ Hx Hn)].
Qed.

Lemma seals_alloc (c : cell) :
  forallb (above n1) (cell_values c) = true ->
  seals h1 (alloc c) (fun a => above n1 a = true).
Proof.
  intros Hc h a h' Hp Hs Hr. unfold alloc in Hr.
  assert (a = HRef (List.length h)) as -> by congruence.
  assert (h' = h ++ [c]) as -> by congruence.
  pose proof (prefix_length _ _ Hp) as Hle. split; [|split].
  - now rewrite firstn_alloc.
  - intros l c' Hl Hn. apply nth_alloc in Hn. destruct Hn as [Hn|[_ ->]]; [|exact Hc].
    exact (Hs _ _ Hl Hn).
  - simpl. now apply Nat.leb_le.
Qed.

Lemma seals_store (l : loc) (c : cell) :
  n1 <= l -> forallb (above n1) (cell_values c) = true -> seals h1 (store l c) any.
Proof.
  intros Hle Hc h a h' Hp Hs Hr. unfold store in Hr.
  assert (h' = update l c h) as -> by congruence. split; [|split; [|exact I]].
  - now rewrite firstn_update_above.
  - intros j c' Hj Hn. apply nth_update in Hn. destruct Hn as [[_ ->]|Hn]; [exact Hc|].
    exact (Hs _ _ Hj Hn).
Qed.

Lemma seals_assign (x : hval) (k : string) (v : hval) :
  above n1 x = true -> above n1 v = true -> seals h1 (assign x k v) any.
Proof.
  intros Hx Hv. destruct x; simpl; try apply seals_throw; try now apply seals_ret.
  apply Nat.leb_le in Hx. intros h a h' Hp Hs Hr.
  apply bind_inv in Hr. destruct Hr as [c [h2 [Hl Hr]]].
  apply load_inv in Hl. destruct Hl as [Hn ->]. pose proof (Hs _ _ Hx Hn) as Hc.
  destruct c as [props|elems]; simpl in Hc.
  - refine (seals_store l _ Hx _ _ _ _ Hp Hs Hr). simpl. now apply forallb_set_prop.
  - destruct (index_of_key k).
    + refine (seals_store l _ Hx _ _ _ _ Hp Hs Hr). simpl. now apply forallb_write_index.
    + apply ret_inv in Hr. destruct Hr as [_ ->]. auto.
Qed.

Lemma seals_walk (path : list string) (v nested : hval) :
  above n1 v = true -> above n1 nested = true -> seals h1 (walk path v nested) any.
Proof.
  intros Hv. revert nested. induction path as [|key rest IH]; intros nested Hn.
  - simpl. destruct (nullish nested); now apply seals_ret.
  - cbn [walk]. destruct (nullish nested); [now apply seals_ret|].
    destruct rest as [|next rest]; [now apply seals_assign|].
    destruct nested; try now apply seals_ret.
    apply (seals_bind _ _ (fun a => above n1 a = true)); [now apply seals_get_above|].
    intros child _. apply seals_seq.
    { destruct (nullish child); [|now apply seals_ret].
      apply (seals_bind _ _ (fun a => above n1 a = true)).
      - apply seals_alloc. now destruct (Reference.isIndex next).
      - intros created Hcr. now apply seals_assign. }
    intros _. apply (seals_bind _ _ (fun a => above n1 a = true)); [now apply seals_get_above|].
    intros child' Hc. now apply IH.
Qed.

Lemma seals_set (object path v : hval) :
  above n1 object = true -> above n1 v = true -> seals h1 (set object path v) any.
Proof.
  intros Ho Hv. unfold set. destruct (nullish object); [now apply seals_ret|].
  apply seals_seq; [apply seals_reads; [apply reads_ToString | apply keeps_reads, reads_ToString]|].
  intros pathKey.
  apply seals_seq; [apply seals_reads; [apply reads_get | apply keeps_reads, reads_get]|].
  intros current.
  apply seals_seq; [apply seals_reads; [apply reads_view | apply keeps_reads, reads_view]|].
  intros pathTree. cbv zeta.
  match goal with |- seals _ (if ?b then _ else _) _ => destruct b end;
    [now apply seals_assign|].
  assert (Hdeep : seals h1
            (if Lodash.contains "["%char pathKey then ret tt
             else present <~ has pathKey object ;;
                  if present : bool then assign object pathKey v
                  else walk (Reference.toPath pathKey) v object) any).
  { destruct (Lodash.contains "["%char pathKey); [now apply seals_ret|].
    apply seals_seq; [apply seals_reads; [apply reads_has | apply keeps_reads, reads_has]|].
    intros present. destruct present; [now apply seals_assign | now apply seals_walk]. }
  destruct pathTree; try exact Hdeep; now apply seals_ret.
Qed.

Lemma seals_foldM {A S : Type} (f : S -> A -> M S) (l : list A) (s : S) (Inv : S -> Prop) :
  (forall s a, Inv s -> seals h1 (f s a) Inv) -> Inv s -> seals h1 (foldM f l s) Inv.
Proof.
  intros Hf. revert s. induction l as [|a l IH]; intros s Hs; simpl; [now apply seals_ret|].
  apply (seals_bind _ _ Inv); [now apply Hf | exact IH].
Qed.

Lemma seals_reduce (c : hval) (f : hval -> hval -> M hval) (acc : hval) (Inv : hval -> Prop) :
  below n0 c = true ->
  (forall acc v, Inv acc -> below n0 v = true -> seals h1 (f acc v) Inv) ->
  Inv acc -> seals h1 (reduce c f acc) Inv.
Proof.
  intros Hc Hf Hacc. unfold reduce.
  apply seals_seq;
    [apply seals_reads; [apply reads_iteration_keys | apply keeps_reads, reads_iteration_keys]|].
  intros keys. apply seals_foldM; [|exact Hacc]. intros s key Hs.
  apply (seals_bind _ _ (fun v => below n0 v = true)).
  - apply seals_reads; [apply reads_element | now apply keeps_element_below].
  - intros v Hv. now apply Hf.
Qed.

Lemma reads_makeExampleFromType (t name : hval) : reads (makeExampleFromType t name).
Proof.
  unfold makeExampleFromType. destruct (is_string (shallow t) "string").
  - apply reads_bind; [apply reads_ToString | intros; apply reads_ret].
  - destruct (is_string (shallow t) "number"); [apply reads_ret|].
    apply reads_bind; [apply reads_ToString | intros; apply reads_throw].
Qed.

Lemma keeps_makeExampleFromType (t name : hval) :
  keeps h0 (makeExampleFromType t name) (fun a => primitive a = true).
Proof.
  unfold makeExampleFromType. destruct (is_string (shallow t) "string").
  - apply keeps_seq; [apply keeps_reads, reads_ToString | intros; now apply keeps_ret].
  - destruct (is_string (shallow t) "number"); [now apply keeps_ret|].
    apply keeps_seq; [apply keeps_reads, reads_ToString | intros; apply keeps_throw].
Qed.

(** One parameter: what is written at its display name is a literal, so
    the path [_.set] follows stays among the cells of the composite. *)
Lemma seals_parameter (o v : hval) :
  above n1 o = true -> below n0 v = true ->
  seals h1
    (present <~ has "example" v ;;
     example <~ (if present : bool then get v "example"
                 else t <~ get v "type" ;;
                      name <~ get v "displayName" ;;
                      makeExampleFromType t name) ;;
     name <~ get v "displayName" ;;
     set o name example ;;;
     ret o)
    (fun o => above n1 o = true).
Proof.
  intros Ho Hv.
  apply seals_seq; [apply seals_reads; [apply reads_has | apply keeps_reads, reads_has]|].
  intros present. apply (seals_bind _ _ (fun a => primitive a = true)).
  - destruct present.
    + apply seals_reads; [apply reads_get | now apply keeps_get_example].
    + apply seals_reads.
      * apply reads_bind; [apply reads_get | intros t].
        apply reads_bind; [apply reads_get | intros name]. apply reads_makeExampleFromType.
      * apply keeps_seq; [apply keeps_reads, reads_get | intros t].
        apply keeps_seq; [apply keeps_reads, reads_get | intros name].
        apply keeps_makeExampleFromType.
  - intros example He.
    apply seals_seq; [apply seals_reads; [apply reads_get | apply keeps_reads, reads_get]|].
    intros name. apply seals_seq; [|intros; now apply seals_ret].
    apply seals_set; [exact Ho | now apply primitive_above].
Qed.

End Seals.

(** *** The functions of [main.js] *)

Lemma keeps_run {A : Type} (m : M A) (Q : A -> Prop) (h : heap) (a : A) (h' : heap) :
  keeps h0 m Q -> firstn n0 h = h0 -> m h = Ok (a, h') -> firstn n0 h' = h0.
Proof. intros Hk Hp Hr. exact (proj1 (Hk _ _ _ Hp Hr)). Qed.

(** [makeExamplesOf] is called on the copy of a method: a cell that holds
    values of the document. *)
Lemma makeExamplesOf_keeps (l : loc) (props : list (string * hval)) (h : heap)
  (a : hval) (h' : heap) :
  firstn n0 h = h0 -> nth_error h l = Some (HObj props) ->
  forallb (below n0) (List.map snd props) = true ->
  makeExamplesOf (HRef l) h = Ok (a, h') -> firstn n0 h' = h0.
Proof.
  intros Hp Hn Hprops Hr. unfold makeExamplesOf in Hr.
  assert (Hfield : forall k b hb, get (HRef l) k h = Ok (b, hb) ->
                                  hb = h /\ below n0 b = true).
  { intros k b hb Hg. apply get_inv in Hg. destruct Hg as [-> [c [Hc ->]]].
    split; [reflexivity|]. rewrite Hn in Hc. injection Hc as <-.
    apply read_forallb; [apply primitive_below | exact Hprops]. }
  apply bind_inv in Hr. destruct Hr as [body [hb [Hg Hr]]].
  apply Hfield in Hg. destruct Hg as [-> Hbody].
  destruct (truthy body).
  - eapply (keeps_run _ any); [|exact Hp | exact Hr].
    apply keeps_seq; [eapply keeps_weaken; [apply keeps_values | auto]|]. intros schemas.
    apply keeps_seq; [eapply keeps_weaken; [apply keeps_pluck | auto]|]. intros examples.
    eapply keeps_weaken; [apply keeps_map_any | auto]. intros x _. apply keeps_tryPrettyJson.
  - apply bind_inv in Hr. destruct Hr as [params [hb [Hg Hr]]].
    apply Hfield in Hg. destruct Hg as [-> Hparams].
    apply bind_inv in Hr. destruct Hr as [empty [hb [Ha Hr]]].
    unfold alloc in Ha.
    assert (empty = HRef (List.length h)) as -> by congruence.
    assert (hb = h ++ [HObj []]) as -> by congruence.
    apply bind_inv in Hr. destruct Hr as [obj [h2 [Hred Hr]]].
    assert (Hloop : seals h (reduce params (fun o v =>
               present <~ has "example" v ;;
               example <~ (if present : bool then get v "example"
                           else t <~ get v "type" ;;
                                name <~ get v "displayName" ;;
                                makeExampleFromType t name) ;;
               name <~ get v "displayName" ;;
               set o name example ;;;
               ret o) (HRef (List.length h))) (fun o => above (List.length h) o = true)).
    { apply (seals_reduce h Hp); [exact Hparams | | simpl; now apply Nat.leb_le].
      intros acc v Hacc Hv. now apply seals_parameter. }
    assert (Hstart : firstn (List.length h) (h ++ [HObj []]) = h)
      by (rewrite firstn_alloc by lia; apply firstn_all).
    assert (Hsealed : sealed (List.length h) (h ++ [HObj []])).
    { intros j c Hj Hc. apply nth_alloc in Hc. destruct Hc as [Hc|[_ ->]]; [|reflexivity].
      assert (j < List.length h) by (apply nth_error_Some; congruence). lia. }
    destruct (Hloop _ _ _ Hstart Hsealed Hred) as [Hp2 _].
    eapply (keeps_run _ any); [|exact (prefix_trans _ _ _ Hp Hp2) | exact Hr].
    apply keeps_seq; [apply keeps_reads, reads_Object_keys|]. intros keys.
    destruct (0 <? List.length keys)%nat; [|now apply keeps_ret].
    eapply keeps_weaken; [apply keeps_alloc | auto].
Qed.

Lemma keeps_flattenMethods (methods : hval) :
  below n0 methods = true ->
  keeps h0 (flattenMethods methods) (fun a => above n0 a = true).
Proof.
  intros Hm. unfold flattenMethods. apply keeps_map; [exact Hm|].
  intros objForMethod _ Hv h a h' Hp Hr.
  apply bind_inv in Hr. destruct Hr as [obj [hb [Hc Hr]]].
  unfold extend_new in Hc. apply bind_inv in Hc. destruct Hc as [props [hc [Ho Ha]]].
  destruct (keeps_own_props_below _ Hv _ _ _ Hp Ho) as [_ Hprops].
  apply reads_own_props in Ho. subst hc. unfold alloc in Ha.
  assert (obj = HRef (List.length h)) as -> by congruence.
  assert (hb = h ++ [HObj props]) as -> by congruence.
  pose proof (prefix_length _ _ Hp) as Hle.
  assert (Hp1 : firstn n0 (h ++ [HObj props]) = h0) by now rewrite firstn_alloc.
  apply bind_inv in Hr. destruct Hr as [methodName [hb [Hg Hr]]].
  apply reads_get in Hg. subst hb.
  apply bind_inv in Hr. destruct Hr as [requestExamples [h2 [He Hr]]].
  assert (Hp2 : firstn n0 h2 = h0).
  { eapply (makeExamplesOf_keeps (List.length h) props); [exact Hp1 | | exact Hprops | exact He].
    rewrite nth_error_app2 by lia. now rewrite Nat.sub_diag. }
  assert (Hobj : above n0 (HRef (List.length h)) = true) by (simpl; now apply Nat.leb_le).
  split; [|exact I]. eapply (keeps_run _ any); [|exact Hp2 | exact Hr].
  apply keeps_seq; [now apply keeps_assign|]. intros _.
  apply (keeps_bind _ _ (fun v => below n0 v = true)); [now apply keeps_get_below|].
  intros declared Hd. apply keeps_seq.
  - eapply keeps_weaken; [|auto]. apply keeps_map; [exact Hd|].
    intros objForCode code Hcode.
    apply (keeps_bind _ _ (fun o => above n0 o = true)); [apply keeps_alloc|].
    intros summary Hs. apply keeps_seq; [|intros; now apply keeps_ret].
    apply keeps_forEach; [exact Hcode|]. intros objForBody _ Hbody.
    apply keeps_forEach; [exact Hbody|]. intros objForRespType _ Hresp.
    apply keeps_seq; [apply keeps_reads, reads_get|]. intros example.
    apply keeps_seq; [now apply keeps_assign|]. intros _.
    apply keeps_seq; [now apply keeps_assign|]. intros _.
    now apply keeps_assign.
  - intros responses. apply keeps_seq; [now apply keeps_assign|]. intros _. now apply keeps_ret.
Qed.

Lemma keeps_recur (stack : nat) (xs parents res : hval) :
  above n0 xs = true -> above n0 parents = true -> below n0 res = true ->
  keeps h0 (recur stack xs parents res) any.
Proof.
  intros Hxs. revert parents res. induction stack as [|stack IH]; intros parents res Hps Hres.
  - apply keeps_throw.
  - cbn [recur]. destruct (negb (truthy res)); [now apply keeps_ret|].
    apply (keeps_bind _ _ (fun o => above n0 o = true)); [apply keeps_extend_new|].
    intros clean Hclean.
    apply keeps_seq; [now apply keeps_delete|]. intros _.
    apply (keeps_bind _ _ (fun v => below n0 v = true)); [now apply keeps_get_below|].
    intros methods Hm.
    apply keeps_seq; [eapply keeps_weaken; [now apply keeps_flattenMethods | auto]|].
    intros methods'.
    apply keeps_seq; [now apply keeps_assign|]. intros _.
    apply keeps_seq; [eapply keeps_weaken; [apply keeps_pluck | auto]|]. intros uris.
    apply keeps_seq; [apply keeps_reads, reads_join|]. intros basePath.
    apply keeps_seq; [now apply keeps_assign|]. intros _.
    apply keeps_seq; [apply keeps_reads, reads_get|]. intros path.
    apply keeps_seq; [now apply keeps_assign|]. intros _.
    apply keeps_seq; [now apply keeps_push|]. intros _.
    apply (keeps_bind _ _ (fun o => above n0 o = true)); [apply keeps_concat1|].
    intros newParents Hnew.
    apply (keeps_bind _ _ (fun v => below n0 v = true)); [now apply keeps_get_below|].
    intros resources Hrs.
    apply keeps_forEach; [exact Hrs|]. intros r _ Hr. now apply IH.
Qed.

Lemma keeps_flattenResources (stack : nat) (res traits : hval) :
  below n0 res = true -> keeps h0 (flattenResources stack res traits) any.
Proof.
  intros Hres. unfold flattenResources.
  apply (keeps_bind _ _ (fun o => above n0 o = true)); [apply keeps_alloc|]. intros xs Hxs.
  apply (keeps_bind _ _ (fun o => above n0 o = true)); [apply keeps_alloc|]. intros ps Hps.
  apply keeps_seq; [now apply keeps_recur|]. intros _. now apply keeps_ret.
Qed.

Lemma keeps_traitsToObject (traits : hval) :
  below n0 traits = true -> keeps h0 (traitsToObject traits) any.
Proof.
  intros Ht. unfold traitsToObject.
  apply (keeps_bind _ _ (fun o => above n0 o = true)); [apply keeps_alloc|]. intros empty He.
  eapply keeps_weaken; [|auto].
  apply (keeps_reduce _ _ _ (fun o => above n0 o = true)); [exact Ht | | exact He].
  intros acc obj Hacc _.
  apply keeps_seq; [apply keeps_reads, reads_Object_keys|]. intros keys. cbv zeta.
  apply keeps_seq; [apply keeps_reads, reads_get|]. intros v.
  apply keeps_seq; [now apply keeps_assign|]. intros _. now apply keeps_ret.
Qed.

Lemma keeps_flattenHierarchy (stack : nat) (root : hval) :
  below n0 root = true -> keeps h0 (flattenHierarchy stack root) any.
Proof.
  intros Hroot. unfold flattenHierarchy.
  apply keeps_seq; [apply keeps_reads, reads_get|]. intros title.
  apply (keeps_bind _ _ (fun v => below n0 v = true)); [now apply keeps_get_below|].
  intros declared Hd.
  apply keeps_seq; [now apply keeps_traitsToObject|]. intros traits.
  apply keeps_seq; [apply keeps_reads, reads_get|]. intros declared'.
  apply keeps_seq; [now apply keeps_flattenResources|]. intros resources.
  apply keeps_seq; [apply keeps_reads, reads_get|]. intros title'.
  eapply keeps_weaken; [apply keeps_alloc | auto].
Qed.

(** What a value of the document stands for is read in the document's
    cells alone. *)
Lemma reify_prefix (fuel : nat) (h : heap) (v : hval) :
  firstn n0 h = h0 -> below n0 v = true -> reify fuel h v = reify fuel h0 v.
Proof.
  intros Hp. revert v. induction fuel as [|fuel IH]; intros v Hv; [now destruct v|].
  destruct v; try reflexivity. simpl in Hv. apply Nat.ltb_lt in Hv.
  cbn [reify]. rewrite (prefix_nth _ _ _ Hp Hv).
  destruct (nth_error h0 l) as [c|] eqn:Hn; [|reflexivity].
  assert (Hc : forallb (below n0) (cell_values c) = true).
  { apply nth_error_In in Hn. unfold closed in Hclosed.
    rewrite forallb_forall in Hclosed. now apply Hclosed. }
  rewrite forallb_forall in Hc. destruct c as [props|elems]; simpl in Hc; f_equal.
  - apply map_ext_in. intros [k x] Hin. simpl. f_equal. apply IH, Hc.
    apply in_map_iff. now exists (k, x).
  - apply map_ext_in. intros x Hin. now apply IH, Hc.
Qed.

End Keeps.

End StoreFacts.

(** X14. The call leaves a document as it is when no [example] of the
    document is an object or an array: no cell of the store it starts from
    changes, and the tree read from any value of the document is the same
    before and after. *)
Theorem flattenHierarchy_keeps_document `{Host} (stack : nat) (root : Heap.hval)
  (before : Heap.heap) (out : Heap.hval) (after : Heap.heap) :
  Heap.closed before = true -> Heap.literal_examples before = true ->
  Heap.below (List.length before) root = true ->
  Heap.flattenHierarchy stack root before = Ok (out, after) ->
  firstn (List.length before) after = before
  /\ forall fuel v, Heap.below (List.length before) v = true ->
                    Heap.reify fuel after v = Heap.reify fuel before v.
Proof.
  intros Hclosed Hliteral Hroot Hrun.
  assert (Hp : firstn (List.length before) after = before).
  { eapply (StoreFacts.keeps_run before); [| |exact Hrun].
    - now apply StoreFacts.keeps_flattenHierarchy.
    - apply firstn_all. }
  split; [exact Hp|]. intros fuel v Hv. now apply StoreFacts.reify_prefix.
Qed.

Section Witnesses.
#[local] Existing Instance reference_host.

(** The tree has the shape it is meant to have. *)
Lemma example_leaf_child : In example_leaf (children example_root).
Proof. left. reflexivity. Qed.

(** On the two-level tree: the record of [/b] has [basePath] [/a], the
    first record is the root's. *)
Lemma flattenResources_paths_witness :
  flattenResources example_root Undefined = Ok example_out
  /\ (exists rec methods,
        In rec example_out /\ rec = record [example_root] example_leaf methods
        /\ prop rec "basePath" = Str "/a" /\ prop rec "path" = Str "/b")
  /\ (exists rec rest, example_out = rec :: rest /\ prop rec "basePath" = Str "").
Proof.
  assert (Hout : flattenResources example_root Undefined = Ok example_out)
    by (vm_compute; reflexivity).
  destruct (proj2 (flattenResources_paths example_root Undefined) example_out Hout)
    as [Hnodes [_ Hroot]].
  split; [exact Hout | split].
  - destruct (Hnodes [example_root] example_leaf
                (node_below example_root example_leaf [] example_leaf
                   eq_refl example_leaf_child (node_root example_leaf)) eq_refl)
      as [rec [methods [Hin [Hrec [Hbase [Hpath _]]]]]].
    exists rec, methods. repeat split; assumption.
  - apply Hroot. reflexivity.
Defined.

Lemma example_tree_nodes : tree_nodes example_root 2.
Proof.
  apply (tree_node example_root [1]); [reflexivity|].
  change (Forall2 tree_nodes [example_leaf] [1]).
  constructor; [|constructor].
  apply (tree_node example_leaf []); [reflexivity|].
  change (Forall2 tree_nodes [] []). constructor.
Qed.

(** The two-level tree has two nodes and flattens to two records. *)
Lemma flattenResources_length_witness :
  tree_nodes example_root 2
  /\ flattenResources example_root Undefined = Ok example_out
  /\ List.length example_out = 2.
Proof.
  assert (Hout : flattenResources example_root Undefined = Ok example_out)
    by (vm_compute; reflexivity).
  split; [exact example_tree_nodes | split; [exact Hout|]].
  exact (proj1 (flattenResources_length example_root Undefined 2 example_tree_nodes)
           example_out Hout).
Defined.


(** A body with two content types gives two examples. *)
Lemma makeExamplesOf_body_witness :
  get example_post "body"
  = Ok (Obj [("application/json", Obj [("example", Str json_a1)]);
             ("text/plain", Obj [("example", Str "not json")])])
  /\ exists examples,
       makeExamplesOf example_post = Ok (Arr examples) /\ List.length examples = 2.
Proof.
  split; [reflexivity|].
  destruct (makeExamplesOf_body example_post _ eq_refl) as [examples [Hex Hall]].
  exists examples. split; [exact Hex|].
  apply Forall2_length in Hall. now rewrite <- Hall.
Defined.


(** A method with only a verb has no request examples. *)
Lemma flattenMethod_no_examples_witness :
  truthy (prop example_get "body") = false
  /\ Lodash.entries (prop example_get "params") = []
  /\ makeExamplesOf (Obj (Lodash.extend_new example_get)) = Ok Undefined.
Proof.
  split; [reflexivity | split; [reflexivity|]].
  exact (proj1 (flattenMethod_no_examples example_get eq_refl eq_refl)).
Defined.

End Witnesses.

Section MoreWitnesses.
#[local] Existing Instance reference_host.



(** C9, evaluated.  [flattenHierarchy] runs on [aliasing_document]: the
    object that is the literal example of the parameter [user] (cell 0 of
    the store the document is brought into) has one property before the
    call and two after it, [_.set] having followed the display name
    [user.name] into it.  The tree read from the root of the document is
    the document before the call and another tree after it. *)
Lemma flattenHierarchy_writes_into_input :
  exists root before out after,
    Heap.import aliasing_document [] = Ok (root, before)
    /\ Heap.flattenHierarchy 64 root before = Ok (out, after)
    /\ Heap.closed before = true
    /\ Heap.literal_examples before = false
    /\ nth_error before 0 = Some (Heap.HObj [("id", Heap.HNumber 1)])
    /\ nth_error after 0
       = Some (Heap.HObj [("id", Heap.HNumber 1);
                          ("name", Heap.HStr "EXAMPLE: user.name")])
    /\ firstn (List.length before) after <> before
    /\ Heap.reify (List.length before) before root = aliasing_document
    /\ Heap.reify (List.length before) after root <> aliasing_document.
Proof.
  assert (Hin : exists root before, Heap.import aliasing_document [] = Ok (root, before))
    by (do 2 eexists; vm_compute; reflexivity).
  destruct Hin as [root [before Hin]].
  assert (Hsame := Hin). vm_compute in Hsame. injection Hsame as <- <-.
  assert (Hrun : exists out after,
             Heap.flattenHierarchy 64
               (fst (match Heap.import aliasing_document [] with
                     | Ok p => p
                     | Throw _ => (Heap.HUndefined, [])
                     end))
               (snd (match Heap.import aliasing_document [] with
                     | Ok p => p
                     | Throw _ => (Heap.HUndefined, [])
                     end)) = Ok (out, after))
    by (do 2 eexists; vm_compute; reflexivity).
  destruct Hrun as [out [after Hrun]]. rewrite Hin in Hrun. cbn [fst snd] in Hrun.
  eexists _, _, out, after. split; [exact Hin|]. split; [exact Hrun|].
  assert (Hsame := Hrun). vm_compute in Hsame. injection Hsame as <- <-.
  repeat (split; [vm_compute; reflexivity|]).
  split; [vm_compute; discriminate|].
  split; [vm_compute; reflexivity | vm_compute; discriminate].
Qed.

(** [flattenHierarchy_keeps_document] on [literal_document], whose second
    parameter has a dotted display name as well: the path leads into an
    object that [_.set] has created, and the document is read back as it
    was. *)
Lemma flattenHierarchy_keeps_document_witness :
  exists root before out after,
    Heap.import literal_document [] = Ok (root, before)
    /\ Heap.flattenHierarchy 64 root before = Ok (out, after)
    /\ firstn (List.length before) after = before
    /\ Heap.reify (List.length before) after root = literal_document.
Proof.
  assert (Hin : exists root before, Heap.import literal_document [] = Ok (root, before))
    by (do 2 eexists; vm_compute; reflexivity).
  destruct Hin as [root [before Hin]].
  assert (Hsame := Hin). vm_compute in Hsame. injection Hsame as <- <-.
  assert (Hrun : exists out after,
             Heap.flattenHierarchy 64
               (fst (match Heap.import literal_document [] with
                     | Ok p => p
                     | Throw _ => (Heap.HUndefined, [])
                     end))
               (snd (match Heap.import literal_document [] with
                     | Ok p => p
                     | Throw _ => (Heap.HUndefined, [])
                     end)) = Ok (out, after))
    by (do 2 eexists; vm_compute; reflexivity).
  destruct Hrun as [out [after Hrun]]. rewrite Hin in Hrun. cbn [fst snd] in Hrun.
  eexists _, _, out, after. split; [exact Hin|]. split; [exact Hrun|].
  pose proof (fun Hclosed Hliteral Hroot =>
                flattenHierarchy_keeps_document 64 _ _ out after Hclosed Hliteral Hroot Hrun)
    as Hkeeps.
  destruct (Hkeeps eq_refl eq_refl eq_refl) as [Hkept Hview].
  split; [exact Hkept|]. rewrite Hview by reflexivity. vm_compute. reflexivity.
Defined.

(** On the end-to-end example nothing of the input is written to, and the
    result read back from the store is the result of the tree model. *)
Example flattenHierarchy_models_agree :
  exists before after out,
    Heap.run 64 example_root = Ok (before, after, out)
    /\ firstn (List.length before) after = before
    /\ flattenHierarchy example_root = Ok out.
Proof.
  assert (Hrun : exists before after out,
             Heap.run 64 example_root = Ok (before, after, out))
    by (do 3 eexists; vm_compute; reflexivity).
  destruct Hrun as [before [after [out Hrun]]].
  exists before, after, out.
  assert (Hsame := Hrun). vm_compute in Hsame.
  injection Hsame as <- <- <-.
  split; [exact Hrun|]. split; vm_compute; reflexivity.
Qed.

(** The example of section 8 of the specification: the JSON text [{"a":1}]
    is printed over three lines with an indent of two spaces, and a text
    that is not JSON comes back as it is. *)
Example tryPrettyJson_examples :
  tryPrettyJson (Str json_a1)
  = Ok (Str ("{" ++ Reference.line_break ++ "  " ++ String Reference.quote "a"
             ++ String Reference.quote ": 1" ++ Reference.line_break ++ "}")%string)
  /\ tryPrettyJson (Str "not json") = Ok (Str "not json").
Proof. split; vm_compute; reflexivity. Qed.

End MoreWitnesses.

(** * Further properties of the code *)

(** ** What the flattening raises *)

Section Errors.
Context `{Host}.

Lemma foldM_throw {A S : Type} (f : A -> S -> result S) (l : list A) (s : S) (e : error) :
  Lodash.foldM f l s = Throw e -> exists a s', In a l /\ f a s' = Throw e.
Proof.
  revert s. induction l as [|a l IH]; intros s Hf; [discriminate|].
  simpl in Hf. destruct (f a s) as [s1|e1] eqn:Ha; simpl in Hf.
  - destruct (IH _ Hf) as [b [s' [Hin Hb]]]. exists b, s'. split; [now right | exact Hb].
  - exists a, s. split; [now left | congruence].
Qed.

Lemma mapM_throw {A B : Type} (f : A -> result B) (l : list A) (e : error) :
  Lodash.mapM f l = Throw e -> exists a, In a l /\ f a = Throw e.
Proof.
  induction l as [|a l IH]; intros Hf; [discriminate|].
  simpl in Hf. destruct (f a) as [b|e1] eqn:Ha; simpl in Hf.
  - destruct (Lodash.mapM f l) as [bs|e2]; simpl in Hf; [discriminate|].
    destruct (IH Hf) as [x [Hin Hx]]. exists x. split; [now right | exact Hx].
  - exists a. split; [now left | congruence].
Qed.

Lemma get_throws (x : value) (k : string) (e : error) : get x k = Throw e -> e = TypeError.
Proof. unfold get. destruct (nullish x); congruence. Qed.

Lemma has_throws (k : string) (x : value) (e : error) : has k x = Throw e -> e = TypeError.
Proof. destruct x; simpl; congruence. Qed.

Lemma traitsToObject_throws (traits : value) (e : error) :
  traitsToObject traits = Throw e -> e = TypeError.
Proof.
  unfold traitsToObject, Lodash.reduce. intros Ht.
  destruct (Lodash.foldM _ _ _) as [acc|e1] eqn:Hf; simpl in Ht; [discriminate|].
  injection Ht as ->. apply foldM_throw in Hf. destruct Hf as [[obj key] [acc [_ Hf]]].
  cbn [fst] in Hf. unfold Object_keys in Hf.
  destruct (nullish obj) eqn:Hn; simpl in Hf; [congruence|].
  unfold get in Hf. rewrite Hn in Hf. discriminate.
Qed.

Lemma tryPrettyJson_returns (x : value) : exists y, tryPrettyJson x = Ok y.
Proof. unfold tryPrettyJson. destruct (JSON_parse x); simpl; eauto. Qed.

Lemma makeExampleFromType_throws (t name : value) (e : error) :
  makeExampleFromType t name = Throw e -> e = UnsupportedParameterType t.
Proof.
  unfold makeExampleFromType. destruct (is_string t "string"); [discriminate|].
  destruct (is_string t "number"); [discriminate|]. unfold UnsupportedParameterType. congruence.
Qed.

Lemma addParamExample_throws (o : list (string * value)) (v : value) (e : error) :
  addParamExample o v = Throw e -> raised_by_flattening e.
Proof.
  unfold addParamExample. intros Ha.
  destruct (has "example" v) as [present|e1] eqn:Hh; simpl in Ha.
  - assert (Hv : nullish v = false) by (destruct v; simpl in *; congruence).
    unfold get in Ha. rewrite Hv in Ha. simpl in Ha.
    destruct present; simpl in Ha; [discriminate|].
    destruct (makeExampleFromType (prop v "type") (prop v "displayName")) as [x|e1] eqn:Hm;
      simpl in Ha; [discriminate|].
    injection Ha as <-. right. exists (prop v "type").
    now apply makeExampleFromType_throws in Hm.
  - left. apply has_throws in Hh. congruence.
Qed.

Lemma makeExamplesOf_throws (obj : value) (e : error) :
  makeExamplesOf obj = Throw e -> raised_by_flattening e.
Proof.
  unfold makeExamplesOf, get. intros Hm.
  destruct (nullish obj); simpl in Hm; [left; congruence|].
  destruct (truthy (prop obj "body")).
  - destruct (Lodash.map _ _) as [examples|e1] eqn:Hmap; simpl in Hm; [discriminate|].
    unfold Lodash.map in Hmap. apply mapM_throw in Hmap. destruct Hmap as [x [_ Hx]].
    destruct (tryPrettyJson_returns (fst x)) as [y Hy]. congruence.
  - destruct (Lodash.reduce _ _ _) as [o|e1] eqn:Hr; simpl in Hm; [discriminate|].
    injection Hm as <-. unfold Lodash.reduce in Hr. apply foldM_throw in Hr.
    destruct Hr as [x [o [_ Hx]]]. now apply addParamExample_throws in Hx.
Qed.

Lemma flattenResponse_throws (methodName objForCode code : value) (e : error) :
  flattenResponse methodName objForCode code = Throw e -> e = TypeError.
Proof.
  unfold flattenResponse, Lodash.forEach. intros Hf.
  destruct (Lodash.foldM _ _ _) as [o|e1] eqn:Hr; simpl in Hf; [discriminate|].
  injection Hf as <-. apply foldM_throw in Hr. destruct Hr as [x [o [_ Hx]]].
  apply foldM_throw in Hx. destruct Hx as [y [o' [_ Hy]]].
  destruct (get (fst y) "example") as [ex|e2] eqn:Hg; simpl in Hy; [discriminate|].
  apply get_throws in Hg. congruence.
Qed.

Lemma flattenMethod_throws (objForMethod : value) (e : error) :
  flattenMethod objForMethod = Throw e -> raised_by_flattening e.
Proof.
  unfold flattenMethod. intros Hf.
  destruct (get objForMethod "method") as [methodName|e1] eqn:Hg; simpl in Hf;
    [|left; apply get_throws in Hg; congruence].
  destruct (makeExamplesOf _) as [re|e1] eqn:Hm; simpl in Hf;
    [|injection Hf as <-; now apply makeExamplesOf_throws in Hm].
  destruct (get objForMethod "responses") as [declared|e1] eqn:Hd; simpl in Hf;
    [|left; apply get_throws in Hd; congruence].
  destruct (Lodash.map declared _) as [responses|e1] eqn:Hr; simpl in Hf; [discriminate|].
  injection Hf as <-. unfold Lodash.map in Hr. apply mapM_throw in Hr.
  destruct Hr as [x [_ Hx]]. left. now apply flattenResponse_throws in Hx.
Qed.

Lemma flattenMethods_throws (methods : value) (e : error) :
  flattenMethods methods = Throw e ->
  raised_by_flattening e
  /\ exists objForMethod, In objForMethod (List.map fst (Lodash.entries methods))
                          /\ flattenMethod objForMethod = Throw e.
Proof.
  unfold flattenMethods, Lodash.map. intros Hf.
  destruct (Lodash.mapM _ _) as [flat|e1] eqn:Hm; simpl in Hf; [discriminate|].
  injection Hf as <-. apply mapM_throw in Hm. destruct Hm as [x [Hin Hx]].
  split; [now apply flattenMethod_throws in Hx|].
  exists (fst x). split; [now apply in_map | exact Hx].
Qed.

(** An error of [recur] is the error [flattenMethods] raises at some node
    of the tree; the stack [flattenResources] starts with is never used
    up. *)
Lemma recur_throws (k : nat) :
  forall parents res xs e,
    height res < k -> recur k parents res xs = Throw e ->
    exists ancestors n,
      node_at res ancestors n /\ truthy n = true
      /\ flattenMethods (prop n "methods") = Throw e.
Proof.
  induction k as [|k IH]; intros parents res xs e Hh Hr; [lia|].
  destruct (truthy res) eqn:Ht; [|rewrite recur_falsy in Hr by exact Ht; discriminate].
  rewrite recur_step in Hr by exact Ht.
  destruct (flattenMethods (prop res "methods")) as [methods|e1] eqn:Hm; simpl in Hr.
  - apply foldM_throw in Hr. destruct Hr as [c [xs' [Hin Hc]]].
    pose proof (children_height _ _ Hin) as Hlt.
    assert (Hck : height c < k) by lia.
    destruct (IH _ _ _ _ Hck Hc) as [ancestors [n [Hnode [Hn Hf]]]].
    exists (res :: ancestors), n. split; [|now split].
    now apply (node_below res c).
  - injection Hr as <-. exists [], res. split; [constructor | now split].
Qed.

(** X1. Whatever [flattenHierarchy] throws (the call stack being deep
    enough for the tree) is a [TypeError] or the error of
    [makeExampleFromType] for some type: never the [SyntaxError] of an
    example that is not JSON, which [tryPrettyJson] catches.  The error is
    that of reading the document when it is [null] or [undefined], that of
    [traitsToObject], or that of [flattenMethod] on a method of some node of
    the tree. *)
Theorem flattenHierarchy_errors (root : value) (e : error) :
  flattenHierarchy root = Throw e ->
  raised_by_flattening e
  /\ e <> SyntaxError
  /\ ((nullish root = true /\ e = TypeError)
      \/ (traitsToObject (prop root "traits") = Throw e /\ e = TypeError)
      \/ exists ancestors n objForMethod,
           node_at root ancestors n /\ truthy n = true
           /\ In objForMethod (List.map fst (Lodash.entries (prop n "methods")))
           /\ flattenMethod objForMethod = Throw e).
Proof.
  intros Hf.
  assert (Horigin :
    (nullish root = true /\ e = TypeError)
    \/ (traitsToObject (prop root "traits") = Throw e /\ e = TypeError)
    \/ exists ancestors n objForMethod,
         node_at root ancestors n /\ truthy n = true
         /\ In objForMethod (List.map fst (Lodash.entries (prop n "methods")))
         /\ flattenMethod objForMethod = Throw e).
  { unfold flattenHierarchy, get in Hf. destruct (nullish root) eqn:Hn; simpl in Hf.
    - left. split; [reflexivity | congruence].
    - right. destruct (traitsToObject (prop root "traits")) as [traits|e1] eqn:Ht; simpl in Hf.
      + right. destruct (flattenResources root (prop root "traits")) as [out|e1] eqn:Hr;
          simpl in Hf; [discriminate|].
        injection Hf as <-. unfold flattenResources in Hr.
        apply recur_throws in Hr; [|lia]. destruct Hr as [ancestors [n [Hnode [Hn' Hm]]]].
        apply flattenMethods_throws in Hm. destruct Hm as [_ [m [Hin Hm]]].
        now exists ancestors, n, m.
      + left. injection Hf as <-. split; [reflexivity|]. now apply traitsToObject_throws in Ht. }
  assert (Hraised : raised_by_flattening e).
  { destruct Horigin as [[_ ->]|[[_ ->]|[ancestors [n [m [_ [_ [_ Hm]]]]]]]];
      [now left | now left | now apply flattenMethod_throws in Hm]. }
  split; [exact Hraised|]. split; [|exact Horigin].
  destruct Hraised as [->|[t ->]]; discriminate.
Qed.

End Errors.

(** ** What the records hold *)

Section Records.
Context `{Host}.

Lemma subtree_methods (root : value) (ancestors : list value) (n : value) :
  node_at root ancestors n -> truthy n = true ->
  forall parents out, subtree parents root = Ok out ->
  exists methods,
    flattenMethods (prop n "methods") = Ok methods
    /\ In (record (parents ++ ancestors) n methods) out.
Proof.
  intros Hnode Hn parents out Hout.
  destruct (subtree_block _ _ _ Hnode _ _ Hout) as [before [block [after [-> Hblock]]]].
  rewrite subtree_node in Hblock by exact Hn.
  destruct (flattenMethods (prop n "methods")) as [methods|e] eqn:Hm; simpl in Hblock;
    [|discriminate].
  destruct (Lodash.mapM _ _) as [outs|e]; simpl in Hblock; [|discriminate].
  injection Hblock as <-. exists methods. split; [reflexivity|].
  apply in_or_app. right. apply in_or_app. left. now left.
Qed.

(** X2. All or nothing.  When [flattenResources] returns, [flattenMethods]
    has returned at every node of the tree, and the record of the node
    holds what it returned; when [flattenMethods] throws at some node,
    [flattenResources] returns no list at all. *)
Theorem flattenResources_all_or_nothing (root traits : value) :
  (forall out, flattenResources root traits = Ok out ->
     forall ancestors n, node_at root ancestors n -> truthy n = true ->
       exists methods,
         flattenMethods (prop n "methods") = Ok methods
         /\ In (record ancestors n methods) out
         /\ prop (record ancestors n methods) "methods" = methods)
  /\ (forall ancestors n e, node_at root ancestors n -> truthy n = true ->
        flattenMethods (prop n "methods") = Throw e ->
        exists e', flattenResources root traits = Throw e' /\ raised_by_flattening e').
Proof.
  assert (Hok : forall out, flattenResources root traits = Ok out ->
     forall ancestors n, node_at root ancestors n -> truthy n = true ->
       exists methods,
         flattenMethods (prop n "methods") = Ok methods
         /\ In (record ancestors n methods) out
         /\ prop (record ancestors n methods) "methods" = methods).
  { intros out Hout ancestors n Hnode Hn.
    destruct (subtree_methods _ _ _ Hnode Hn [] out Hout) as [methods [Hm Hin]].
    exists methods. split; [exact Hm|]. split; [exact Hin|].
    unfold record, prop.
    rewrite !lookup_set_prop_ne by discriminate. now rewrite lookup_set_prop_eq. }
  split; [exact Hok|].
  intros ancestors n e Hnode Hn Hm.
  destruct (flattenResources root traits) as [out|e'] eqn:Hr.
  - destruct (Hok out eq_refl _ _ Hnode Hn) as [methods [Hm' _]]. congruence.
  - exists e'. split; [reflexivity|]. unfold flattenResources in Hr.
    apply recur_throws in Hr; [|lia]. destruct Hr as [anc [m [_ [_ Hf]]]].
    now apply flattenMethods_throws in Hf.
Qed.

(** The record of an object node reads like the node at every name but
    the four that [recur] deletes or assigns. *)
Lemma record_field (parents : list value) (fields : list (string * value)) (methods : value)
  (k : string) :
  k <> "resources" -> k <> "methods" -> k <> "basePath" -> k <> "path" ->
  has k (record parents (Obj fields) methods) = has k (Obj fields)
  /\ prop (record parents (Obj fields) methods) k = prop (Obj fields) k.
Proof.
  intros H1 H2 H3 H4. unfold record, has, prop, Lodash.extend_new, own_props.
  rewrite !lookup_set_prop_ne by congruence.
  rewrite lookup_delete_prop_ne by congruence. now split.
Qed.

Lemma record_resources (parents : list value) (res methods : value) :
  has "resources" (record parents res methods) = Ok false.
Proof.
  unfold record, has. rewrite !lookup_set_prop_ne by discriminate.
  now rewrite lookup_delete_prop_eq.
Qed.

(** X3. Every record [flattenResources] returns is the copy of a node of
    the tree without its [resources]: no record has a [resources] field, and
    the record of an object node has the node's other fields (all but
    [methods], [basePath] and [path], which are assigned) with the node's
    values. *)
Theorem flattenResources_passes_fields (root traits : value) (out : list value) :
  flattenResources root traits = Ok out ->
  forall rec, In rec out ->
    has "resources" rec = Ok false
    /\ exists ancestors n,
         node_at root ancestors n /\ truthy n = true
         /\ forall fields, n = Obj fields ->
              forall k, k <> "resources" -> k <> "methods" -> k <> "basePath" -> k <> "path" ->
                        has k rec = has k n /\ prop rec k = prop n k.
Proof.
  intros Hout rec Hin.
  destruct (subtree_records (S (height root)) root [] out (Nat.lt_succ_diag_r _) Hout rec Hin)
    as [ancestors [n [methods [Hnode [Hn ->]]]]].
  split; [apply record_resources|].
  exists ancestors, n. split; [exact Hnode|]. split; [exact Hn|].
  intros fields -> k H1 H2 H3 H4. now apply record_field.
Qed.

(** X4. The model [flattenHierarchy] returns has the three fields [title],
    [traits] and [resources], in this order: the document's title, what
    [traitsToObject] makes of its [traits], and what [flattenResources]
    makes of the document itself.  The document is the root of the tree, so
    it is listed as the first resource when it is truthy; a document that
    is [null] or [undefined] gives a [TypeError]. *)
Theorem flattenHierarchy_model (root : value) :
  (forall model,
     flattenHierarchy root = Ok model <->
     nullish root = false
     /\ exists acc out,
          traitsToObject (prop root "traits") = Ok (Obj acc)
          /\ flattenResources root (prop root "traits") = Ok out
          /\ model = Obj [("title", prop root "title"); ("traits", Obj acc);
                          ("resources", Arr out)])
  /\ (forall out, flattenResources root (prop root "traits") = Ok out -> truthy root = true ->
        exists methods rest, out = record [] root methods :: rest)
  /\ (nullish root = true -> flattenHierarchy root = Throw TypeError).
Proof.
  split; [|split].
  - intros model. unfold flattenHierarchy, get. destruct (nullish root); simpl.
    + split; [discriminate | intros [Hn _]; discriminate].
    + assert (Htraits : forall t, traitsToObject (prop root "traits") = Ok t ->
                                  exists acc, t = Obj acc).
      { unfold traitsToObject. intros t. destruct (Lodash.reduce _ _ _); simpl; [|discriminate].
        intros [= <-]. eauto. }
      destruct (traitsToObject (prop root "traits")) as [t|e] eqn:Ht; simpl.
      * destruct (Htraits t eq_refl) as [acc ->].
        destruct (flattenResources root (prop root "traits")) as [out|e] eqn:Hr; simpl.
        -- split.
           ++ intros [= <-]. split; [reflexivity|]. now exists acc, out.
           ++ intros [_ [acc' [out' [[= <-] [[= <-] ->]]]]]. reflexivity.
        -- split; [discriminate|]. intros [_ [acc' [out' [_ [Hx _]]]]]. discriminate.
      * split; [discriminate|]. intros [_ [acc' [out' [Hx _]]]]. discriminate.
  - intros out Hout Ht. change (subtree [] root = Ok out) in Hout.
    rewrite subtree_node in Hout by exact Ht.
    destruct (flattenMethods (prop root "methods")) as [methods|e]; simpl in Hout;
      [|discriminate].
    destruct (Lodash.mapM _ _) as [outs|e]; simpl in Hout; [|discriminate].
    injection Hout as <-. now exists methods, (List.concat outs).
  - intros Hn. unfold flattenHierarchy, get. now rewrite Hn.
Qed.

End Records.

(** ** More on [traitsToObject] *)

Section MoreTraits.
Context `{Host}.




Lemma traits_fold_returns (elems : list value) (acc : list (string * value)) :
  Forall (fun obj => nullish obj = false) elems ->
  exists acc',
    Lodash.foldM (fun obj a =>
        keys <- Object_keys obj ;;
        let key := ToString (match keys with k :: _ => Str k | [] => Undefined end) in
        v <- get obj key ;;
        Ok (set_prop a key v)) elems acc = Ok acc'.
Proof.
  intros Hall. revert acc. induction Hall as [|obj elems Hobj _ IH]; intros acc; simpl; [eauto|].
  unfold Object_keys, get. rewrite Hobj. simpl. apply IH.
Qed.

(** X6. Where the document has no [traits] (the field is [undefined] or
    [null]) the result is the empty object.  A sequence of traits none of
    which is [null] or [undefined] always gives an object; the first
    element that is [null] or [undefined] makes the call throw a
    [TypeError]. *)
Theorem traitsToObject_absent_and_null (elems : list value) :
  traitsToObject Undefined = Ok (Obj [])
  /\ traitsToObject Null = Ok (Obj [])
  /\ (Forall (fun obj => nullish obj = false) elems ->
      exists acc, traitsToObject (Arr elems) = Ok (Obj acc))
  /\ (forall before x after,
        elems = before ++ x :: after ->
        Forall (fun obj => nullish obj = false) before -> nullish x = true ->
        traitsToObject (Arr elems) = Throw TypeError).
Proof.
  split; [reflexivity|]. split; [reflexivity|]. split.
  - intros Hall. unfold traitsToObject. rewrite reduce_Arr.
    destruct (traits_fold_returns elems [] Hall) as [acc Hacc].
    cbv beta zeta in Hacc |- *. rewrite Hacc. simpl. eauto.
  - intros before x after -> Hbefore Hx. unfold traitsToObject.
    rewrite reduce_Arr, foldM_app.
    destruct (traits_fold_returns before [] Hbefore) as [acc Hacc].
    cbv beta zeta in Hacc |- *. rewrite Hacc.
    cbn [bind Lodash.foldM]. unfold Object_keys. now rewrite Hx.
Qed.

End MoreTraits.

(** ** More on [flattenMethods] *)

Section MoreMethods.
Context `{Host}.

Lemma mapM_app {A B : Type} (f : A -> result B) (l1 l2 : list A) :
  Lodash.mapM f (l1 ++ l2)
  = (bs1 <- Lodash.mapM f l1 ;; bs2 <- Lodash.mapM f l2 ;; Ok (bs1 ++ bs2)).
Proof.
  induction l1 as [|a l1 IH]; simpl.
  - now destruct (Lodash.mapM f l2).
  - destruct (f a); simpl; [|reflexivity]. rewrite IH.
    destruct (Lodash.mapM f l1); simpl; [|reflexivity].
    now destruct (Lodash.mapM f l2).
Qed.


(** X8. [flattenMethods] keeps the methods in order: on a sequence it
    returns the sequence of the records of [flattenMethod], one per method;
    it throws what [flattenMethod] throws on the first method it fails on;
    and where the node has no [methods] (the field is [undefined] or [null])
    it returns the empty array. *)
Theorem flattenMethods_in_order (ms : list value) :
  (forall flat,
     flattenMethods (Arr ms) = Ok flat <->
     exists recs, flat = Arr recs
                  /\ Forall2 (fun m rec => flattenMethod m = Ok rec) ms recs)
  /\ (forall before m after e,
        ms = before ++ m :: after ->
        Forall (fun x => exists rec, flattenMethod x = Ok rec) before ->
        flattenMethod m = Throw e ->
        flattenMethods (Arr ms) = Throw e)
  /\ flattenMethods Undefined = Ok (Arr [])
  /\ flattenMethods Null = Ok (Arr []).
Proof.
  split; [|split; [|split; reflexivity]].
  - intros flat. unfold flattenMethods. rewrite map_Arr.
    destruct (Lodash.mapM flattenMethod ms) as [recs|e] eqn:Hm; simpl.
    + apply mapM_Forall2 in Hm. split.
      * intros [= <-]. now exists recs.
      * intros [recs' [-> Hall]]. apply mapM_Forall2 in Hall. apply mapM_Forall2 in Hm.
        congruence.
    + split; [discriminate|]. intros [recs [_ Hall]]. apply mapM_Forall2 in Hall. congruence.
  - intros before m after e -> Hbefore Hm. unfold flattenMethods.
    rewrite map_Arr, mapM_app.
    destruct (mapM_total flattenMethod before) as [recs Hrecs].
    { intros a Ha. rewrite Forall_forall in Hbefore. now apply Hbefore. }
    rewrite Hrecs. cbn [bind Lodash.mapM]. now rewrite Hm.
Qed.

(** X9. [flattenResources] returns the empty list exactly for a root that
    is falsy ([null], [undefined], [false], 0 or the empty string): any
    other root is listed itself. *)
Theorem flattenResources_empty (root traits : value) :
  flattenResources root traits = Ok [] <-> truthy root = false.
Proof.
  change (flattenResources root traits) with (subtree [] root). split.
  - intros Hout. destruct (truthy root) eqn:Ht; [|reflexivity].
    rewrite subtree_node in Hout by exact Ht.
    destruct (flattenMethods _); simpl in Hout; [|discriminate].
    destruct (Lodash.mapM _ _); simpl in Hout; discriminate.
  - apply subtree_falsy.
Qed.

End MoreMethods.

(** ** Dotted display names *)

Section Dotted.











End Dotted.

Section DottedNames.
#[local] Existing Instance reference_host.


End DottedNames.

(** ** The template helpers *)

Section HelperFacts.
Context `{Host} `{Renderer}.

(** X11. [json_from_string] highlights what [tryPrettyJson] returns for
    the text.  For a text that parses it returns what the helper [json]
    returns for the parsed value; for one that does not it highlights the
    text as it is, after the notice of [invalid_json.html]; for [undefined]
    it returns the empty string. *)
Theorem json_from_string_cases (data : value) :
  json_from_string Undefined = Ok (Text "")
  /\ (data <> Undefined ->
      (forall j, JSON_parse data = Ok j ->
         tryPrettyJson data = Ok (prettyJson j) /\ json_from_string data = json j)
      /\ (forall e, JSON_parse data = Throw e ->
            tryPrettyJson data = Ok data
            /\ json_from_string data
               = (out <- hljs_highlight "json" data ;;
                  code <- get out "value" ;;
                  Ok (SafeString (Str (JSON_PARSE_ERROR ++ PRE_OPEN ++ ToString code
                                       ++ PRE_CLOSE)))))).
Proof.
  split; [reflexivity|]. intros Hdata.
  assert (Hbody : json_from_string data
    = (let (text, err) :=
         match (j <- JSON_parse data ;; Ok (prettyJson j)) with
         | Ok pretty => (pretty, ""%string)
         | Throw _ => (data, JSON_PARSE_ERROR)
         end in
       out <- hljs_highlight "json" text ;;
       code <- get out "value" ;;
       Ok (SafeString (Str (err ++ PRE_OPEN ++ ToString code ++ PRE_CLOSE)))))
    by (destruct data; [contradiction | reflexivity ..]).
  split.
  - intros j Hj. unfold tryPrettyJson. rewrite Hbody, Hj. now split.
  - intros e He. unfold tryPrettyJson. rewrite Hbody, He. now split.
Qed.

Lemma ToNumber_decimal (n : Z) :
  (0 <= n <= Lodash.MAX_SAFE_INTEGER)%Z -> ToNumber (Str (string_of_Z n)) = Some n.
Proof.
  intros [Hlo Hhi]. unfold ToNumber, string_of_Z.
  assert (Hread : NilZero.uint_of_string (NilZero.string_of_int (Z.to_int n))
                  = Some (match n with
                          | Z.pos p => Pos.to_uint p
                          | _ => Decimal.D0 Decimal.Nil
                          end)).
  { destruct n as [|p|p]; [reflexivity | | lia].
    apply NilZero.usu, Unsigned.to_uint_nonnil. }
  destruct (NilZero.string_of_int (Z.to_int n) =? "")%string eqn:Hempty.
  - apply String.eqb_eq in Hempty. rewrite Hempty in Hread. discriminate.
  - rewrite Hread.
    assert (Hvalue : Z.of_N (N.of_uint (match n with
                                        | Z.pos p => Pos.to_uint p
                                        | _ => Decimal.D0 Decimal.Nil
                                        end)) = n).
    { destruct n as [|p|p]; [reflexivity | | lia].
      unfold N.of_uint. now rewrite Unsigned.of_to. }
    rewrite Hvalue. apply Z.leb_le in Hhi. now rewrite Hhi.
Qed.

(** X12. [response_code] puts a status code in the class of its hundreds:
    a code from [100 k] to [100 k + 99], given as a number or as the string
    of its decimal digits, is wrapped in a [span] of the class
    [response-code-kxx], around the code as [escapeExpression] prints it. *)
Theorem response_code_class (n k : Z) (num : value) :
  (0 <= n <= Lodash.MAX_SAFE_INTEGER)%Z ->
  (100 * k <= n < 100 * k + 100)%Z ->
  num = Number n \/ num = Str (string_of_Z n) ->
  response_code num
  = Some (SafeString
            (Str ("<span class=" ++ String Reference.quote "response-code response-code-"
                  ++ string_of_Z k ++ "xx" ++ String Reference.quote ">"
                  ++ escapeExpression num ++ "</span>"))).
Proof.
  intros Hn Hk Hnum.
  assert (Hto : ToNumber num = Some n)
    by (destruct Hnum as [-> | ->]; [reflexivity | now apply ToNumber_decimal]).
  assert (Hdiv : (n / 100 = k)%Z)
    by (symmetry; apply (Z.div_unique_pos n 100 k (n - 100 * k)); lia).
  unfold response_code. rewrite Hto. cbv zeta. now rewrite Hdiv.
Qed.

End HelperFacts.

(** ** Text fields of a response *)

Section ResponseText.
Context `{Host}.

(** A character of a string has no [example]. *)
Lemma char_example (s key : string) : prop (prop (Str s) key) "example" = Undefined.
Proof.
  unfold prop at 2. destruct (key =? "length"); [reflexivity|].
  destruct (lookup key (indexed (chars s))) as [v|] eqn:Hl; [|reflexivity].
  apply lookup_In in Hl. unfold indexed in Hl. apply in_combine_r in Hl.
  unfold chars in Hl. apply in_map_iff in Hl. destruct Hl as [c [<- _]]. reflexivity.
Qed.

Lemma visited_text (s : string) :
  s <> "" -> (Z.of_nat (String.length s) <= Lodash.MAX_SAFE_INTEGER)%Z ->
  exists earlier key,
    List.map fst (Lodash.entries (Str s)) = earlier ++ [prop (Str s) key].
Proof.
  intros Hs Hlen. unfold Lodash.entries, Lodash.getLength.
  assert (Ht : truthy (Str s) = true)
    by (simpl; apply negb_true_iff; now apply String.eqb_neq).
  rewrite Ht. cbn [nullish prop]. rewrite String.eqb_refl. cbn [Lodash.isLength].
  assert (H0 : (0 <=? Z.of_nat (String.length s))%Z = true) by (apply Z.leb_le; lia).
  apply Z.leb_le in Hlen. rewrite H0, Hlen. cbn [andb]. rewrite Nat2Z.id.
  destruct (String.length s) as [|m] eqn:Hm; [destruct s; [congruence | discriminate]|].
  rewrite seq_S, !map_app. cbn [List.map fst plus].
  eexists _, (string_of_nat m). reflexivity.
Qed.

(** X13. An entry of a response that is a non-empty string (a
    [description], say) is walked like a body: its characters are visited
    as if they were content-type schemas, and none has an [example].  So
    when such an entry is the last one of the response, the summary has the
    code and the verb and [undefined] for its example, whatever the bodies
    before it declare. *)
Theorem flattenResponse_text_last (methodName code : value)
  (fields : list (string * value)) (k s : string) (r : value) :
  Lodash.isLength (prop (Obj (fields ++ [(k, Str s)])) "length") = false ->
  s <> "" -> (Z.of_nat (String.length s) <= Lodash.MAX_SAFE_INTEGER)%Z ->
  flattenResponse methodName (Obj (fields ++ [(k, Str s)])) code = Ok r ->
  r = summary Undefined code methodName.
Proof.
  intros Hlength Hs Hlen Hr. rewrite flattenResponse_fold in Hr.
  destruct (Lodash.foldM _ _ _) as [obj|e] eqn:Hfold; cbn [bind] in Hr; [|discriminate].
  injection Hr as <-.
  assert (Hvisited : exists earlier key,
             visited (Obj (fields ++ [(k, Str s)])) = earlier ++ [prop (Str s) key]).
  { unfold visited. unfold Lodash.entries at 2. unfold Lodash.getLength.
    cbn [truthy nullish]. rewrite Hlength. cbn [own_props].
    rewrite !map_app, flat_map_app. cbn [List.map fst snd flat_map].
    destruct (visited_text s Hs Hlen) as [earlier [key ->]].
    rewrite app_nil_r, app_assoc. eauto. }
  destruct Hvisited as [earlier [key Hv]]. rewrite Hv in Hfold.
  destruct (assign_summary_last _ _ _ _ _ (or_introl eq_refl) Hfold)
    as [[Hnil _] | [earlier' [last [Heq Hlast]]]].
  - now destruct earlier.
  - apply app_inj_tail in Heq. destruct Heq as [_ <-].
    now rewrite char_example in Hlast.
Qed.

End ResponseText.

(** ** The shape of the request examples *)

Section Shapes.
Context `{Host}.

(** X15. What [makeExamplesOf] returns.  With a truthy [body] it always
    returns an array, with one entry per property of the body (none for the
    empty object: the empty array, not [undefined]); it reads no parameter
    and cannot throw.  Without one it returns [undefined] or an array that
    holds one object, which has at least one property. *)
Theorem makeExamplesOf_shape (obj : value) :
  nullish obj = false ->
  (truthy (prop obj "body") = true ->
     exists examples,
       makeExamplesOf obj = Ok (Arr examples)
       /\ List.length examples = List.length (own_props (prop obj "body")))
  /\ (truthy (prop obj "body") = false ->
      forall r, makeExamplesOf obj = Ok r ->
        r = Undefined
        \/ exists composite, composite <> [] /\ r = Arr [Obj composite]).
Proof.
  intros Hobj. unfold makeExamplesOf, get. rewrite Hobj. cbn [bind]. split.
  - intros Hbody. rewrite Hbody, map_Arr.
    rewrite (mapM_ext _ (fun x => Ok (match JSON_parse x with
                                      | Ok j => JSON_stringify j 2
                                      | Throw _ => x
                                      end)))
      by (intros x _; apply tryPrettyJson_cases).
    rewrite mapM_pure. cbn [bind]. eexists. split; [reflexivity|].
    rewrite length_map, pluck_Arr, length_map. unfold Lodash.values. apply length_map.
  - intros Hbody r. rewrite Hbody.
    destruct (Lodash.reduce _ _ _) as [o|e]; cbn [bind]; [|discriminate].
    intros [= <-]. destruct o as [|kv o]; [now left|].
    right. exists (kv :: o). split; [discriminate | reflexivity].
Qed.

Lemma assign_summary_returns (methodName code : value) (schemas : list value) :
  forall obj,
    (exists obj', Lodash.foldM (assign_summary methodName code) schemas obj = Ok obj')
    <-> Forall (fun schema => nullish schema = false) schemas.
Proof.
  induction schemas as [|schema schemas IH]; intros obj.
  - split; [constructor | intros _; now exists obj].
  - cbn [Lodash.foldM]. unfold assign_summary at 1. unfold get.
    destruct (nullish schema) eqn:Hn; cbn [bind].
    + split; [intros [obj' Hx]; discriminate | intros Hall; inversion Hall; congruence].
    + rewrite IH. split; [now constructor | intros Hall; now inversion Hall].
Qed.

(** X16. The summary of a status code is built exactly when none of the
    schemas visited under it is [null] or [undefined]: one that is (a
    content type declared without anything under it) makes
    [flattenResponse] throw a [TypeError]. *)
Theorem flattenResponse_null_schema (methodName objForCode code : value) :
  ((exists r, flattenResponse methodName objForCode code = Ok r)
   <-> Forall (fun schema => nullish schema = false) (visited objForCode))
  /\ (forall schema, In schema (visited objForCode) -> nullish schema = true ->
        flattenResponse methodName objForCode code = Throw TypeError).
Proof.
  assert (Hiff : (exists r, flattenResponse methodName objForCode code = Ok r)
                 <-> Forall (fun schema => nullish schema = false) (visited objForCode)).
  { rewrite flattenResponse_fold, <- (assign_summary_returns methodName code _ []).
    destruct (Lodash.foldM _ _ _) as [obj|e]; cbn [bind].
    - split; eauto.
    - split; intros [x Hx]; discriminate. }
  split; [exact Hiff|]. intros schema Hin Hnull.
  destruct (flattenResponse methodName objForCode code) as [r|e] eqn:Hr.
  - assert (Hall : Forall (fun schema => nullish schema = false) (visited objForCode))
      by (apply Hiff; eauto).
    rewrite Forall_forall in Hall. rewrite (Hall _ Hin) in Hnull. discriminate.
  - f_equal. now apply flattenResponse_throws in Hr.
Qed.

End Shapes.

(** ** The further properties at work *)

Section ExtraWitnesses.
#[local] Existing Instance reference_host.
#[local] Existing Instance reference_renderer.

(** The parameter [on] of [unsupported_document] has the type [boolean]
    and no example: the call throws the error of [makeExampleFromType]. *)
Lemma flattenHierarchy_errors_witness :
  flattenHierarchy unsupported_document
  = Throw (Error "makeExampleFromType not implemented for type boolean")
  /\ raised_by_flattening (Error "makeExampleFromType not implemented for type boolean").
Proof.
  assert (Hrun : flattenHierarchy unsupported_document
                 = Throw (Error "makeExampleFromType not implemented for type boolean"))
    by (vm_compute; reflexivity).
  split; [exact Hrun|].
  exact (proj1 (flattenHierarchy_errors unsupported_document _ Hrun)).
Defined.

(** On the two-level tree the record of [/b] holds the two flattened
    methods; on [unsupported_document] nothing is returned. *)
Lemma flattenResources_all_or_nothing_witness :
  (exists methods,
     flattenMethods (prop example_leaf "methods") = Ok methods
     /\ In (record [example_root] example_leaf methods) example_out)
  /\ exists e, flattenResources unsupported_document Undefined = Throw e.
Proof.
  assert (Hout : flattenResources example_root Undefined = Ok example_out)
    by (vm_compute; reflexivity).
  assert (Hthrows : flattenMethods (prop (Obj [("relativeUri", Str "/flags");
                      ("methods",
                       Arr [Obj [("method", Str "put");
                                 ("params",
                                  Arr [Obj [("displayName", Str "on");
                                            ("type", Str "boolean")]])]])]) "methods")
                    = Throw (Error "makeExampleFromType not implemented for type boolean"))
    by (vm_compute; reflexivity).
  split.
  - destruct (proj1 (flattenResources_all_or_nothing example_root Undefined) example_out
                Hout [example_root] example_leaf
                (node_below example_root example_leaf [] example_leaf
                   eq_refl (or_introl eq_refl) (node_root example_leaf)) eq_refl)
      as [methods [Hm [Hin _]]].
    now exists methods.
  - destruct (proj2 (flattenResources_all_or_nothing unsupported_document Undefined)
                [unsupported_document] _ _
                (node_below unsupported_document _ [] _ eq_refl (or_introl eq_refl)
                   (node_root _)) eq_refl Hthrows)
      as [e [He _]].
    now exists e.
Defined.

(** The records of the two-level tree: none has [resources], and the one
    of [/b] has the [relativeUri] of its node. *)
Lemma flattenResources_passes_fields_witness :
  flattenResources example_root Undefined = Ok example_out
  /\ Forall (fun rec => has "resources" rec = Ok false) example_out.
Proof.
  assert (Hout : flattenResources example_root Undefined = Ok example_out)
    by (vm_compute; reflexivity).
  split; [exact Hout|]. apply Forall_forall. intros rec Hin.
  exact (proj1 (flattenResources_passes_fields example_root Undefined example_out Hout rec Hin)).
Defined.

(** [example_document]: the model has its title, the two traits and the
    records of the document and of [/b]. *)
Lemma flattenHierarchy_model_witness :
  exists acc out,
    flattenHierarchy example_document
    = Ok (Obj [("title", Str "example"); ("traits", Obj acc); ("resources", Arr out)])
    /\ List.length out = 2.
Proof.
  assert (Hrun : exists model, flattenHierarchy example_document = Ok model)
    by (eexists; vm_compute; reflexivity).
  destruct Hrun as [model Hrun].
  destruct (proj1 (proj1 (flattenHierarchy_model example_document) model) Hrun)
    as [_ [acc [out [_ [Hout ->]]]]].
  exists acc, out. split; [exact Hrun|].
  vm_compute in Hout. injection Hout as <-. reflexivity.
Defined.


(** A [null] among the traits. *)
Lemma traitsToObject_absent_and_null_witness :
  traitsToObject (Arr [Obj [("paged", Obj [])]; Null; Obj [("secured", Obj [])]])
  = Throw TypeError
  /\ exists acc, traitsToObject (Arr [Obj [("paged", Obj [])]]) = Ok (Obj acc).
Proof.
  split.
  - apply (proj2 (proj2 (proj2 (traitsToObject_absent_and_null _)))
             [Obj [("paged", Obj [])]] Null [Obj [("secured", Obj [])]] eq_refl).
    + repeat constructor.
    + reflexivity.
  - apply (proj1 (proj2 (proj2 (traitsToObject_absent_and_null _)))).
    repeat constructor.
Defined.


(** Two methods give two records in the same order; a method that is
    [null] after a good one makes the call throw. *)
Lemma flattenMethods_in_order_witness :
  (exists r1 r2,
     flattenMethods (Arr [example_get; example_post]) = Ok (Arr [r1; r2])
     /\ prop r1 "method" = Str "get" /\ prop r2 "method" = Str "post")
  /\ flattenMethods (Arr [example_get; Null; example_post]) = Throw TypeError.
Proof.
  split.
  - assert (Hrun : exists flat,
               flattenMethods (Arr [example_get; example_post]) = Ok flat)
      by (eexists; vm_compute; reflexivity).
    destruct Hrun as [flat Hrun].
    destruct (proj1 (proj1 (flattenMethods_in_order [example_get; example_post]) flat) Hrun)
      as [recs [-> Hall]].
    inversion Hall as [|m1 r1 ms1 recs1 H1 Hrest]; subst.
    inversion Hrest as [|m2 r2 ms2 recs2 H2 Hnil]; subst.
    inversion Hnil; subst.
    exists r1, r2. split; [exact Hrun|].
    vm_compute in H1. vm_compute in H2. injection H1 as <-. injection H2 as <-.
    split; reflexivity.
  - apply (proj1 (proj2 (flattenMethods_in_order _)) [example_get] Null [example_post]
             TypeError eq_refl).
    + repeat constructor. eexists. vm_compute. reflexivity.
    + reflexivity.
Defined.


(** The text [{"a":1}] is rendered like the object it stands for. *)
Lemma json_from_string_cases_witness :
  json_from_string (Str json_a1) = json (Obj [("a", Number 1)])
  /\ tryPrettyJson (Str "not json") = Ok (Str "not json").
Proof.
  destruct (proj2 (json_from_string_cases (Str json_a1)) ltac:(discriminate)) as [Hok _].
  destruct (proj2 (json_from_string_cases (Str "not json")) ltac:(discriminate)) as [_ Hbad].
  split.
  - assert (Hparse : JSON_parse (Str json_a1) = Ok (Obj [("a", Number 1)]))
      by (vm_compute; reflexivity).
    exact (proj2 (Hok _ Hparse)).
  - assert (Hparse : JSON_parse (Str "not json") = Throw SyntaxError)
      by (vm_compute; reflexivity).
    exact (proj1 (Hbad _ Hparse)).
Defined.

(** The code 404, as the key of a [responses] mapping gives it. *)
Lemma response_code_class_witness :
  response_code (Str "404")
  = Some (SafeString
            (Str ("<span class=" ++ String Reference.quote "response-code response-code-4xx"
                  ++ String Reference.quote ">404</span>"))).
Proof.
  exact (response_code_class 404 4 (Str "404")
           ltac:(unfold Lodash.MAX_SAFE_INTEGER; lia) ltac:(lia) (or_intror eq_refl)).
Defined.

(** The description of [example_described] comes after its body: the
    example of the body is lost. *)
Lemma flattenResponse_text_last_witness :
  flattenResponse (Str "get") example_described (Str "200")
  = Ok (summary Undefined (Str "200") (Str "get")).
Proof.
  assert (Hrun : exists r, flattenResponse (Str "get") example_described (Str "200") = Ok r)
    by (eexists; vm_compute; reflexivity).
  destruct Hrun as [r Hr]. rewrite Hr. f_equal.
  apply (flattenResponse_text_last (Str "get") (Str "200")
           [("body", Obj [("application/json", Obj [("example", Str "[1]")])])]
           "description" "OK" r eq_refl).
  - discriminate.
  - unfold Lodash.MAX_SAFE_INTEGER. simpl. lia.
  - exact Hr.
Defined.

(** The body of [example_post] has two content types; a method whose body
    is the empty object has the empty array for its examples. *)
Lemma makeExamplesOf_shape_witness :
  (exists examples,
     makeExamplesOf example_post = Ok (Arr examples) /\ List.length examples = 2)
  /\ makeExamplesOf (Obj [("body", Obj [])]) = Ok (Arr []).
Proof.
  split.
  - exact (proj1 (makeExamplesOf_shape example_post eq_refl) eq_refl).
  - destruct (proj1 (makeExamplesOf_shape (Obj [("body", Obj [])]) eq_refl) eq_refl)
      as [examples [Hex Hlen]].
    rewrite Hex. now destruct examples.
Defined.

(** [application/json] with nothing under it, in a response. *)
Lemma flattenResponse_null_schema_witness :
  flattenResponse (Str "get") example_bare (Str "200") = Throw TypeError.
Proof.
  exact (proj2 (flattenResponse_null_schema (Str "get") example_bare (Str "200"))
           Null (or_introl eq_refl) eq_refl).
Defined.

End ExtraWitnesses.
